(** * meupet: the Pet query layer, the Kind counter and the Pet lifecycle

    A shallow embedding of [meupet/models.py].  A database table is the
    list of its rows, a [QuerySet] is the list of rows it yields, in the
    order it yields them, and [QuerySet.filter] keeps the rows that
    satisfy every keyword condition.  The table behind [Model.save] is a
    finite map from primary keys to rows.  A [str] is held as the bytes
    of its UTF-8 encoding, a [DateTimeField] as a number of microseconds
    since the epoch. *)

From stdpp Require Import base list gmap strings sorting.
From Stdlib Require Import ZArith Lia Ascii.

Local Open Scope Z_scope.

(** ** Time *)

Definition datetime := Z.

(** [timezone.timedelta(days=d)], in microseconds. *)
Definition timedelta (days : Z) : Z := days * 86400000000.

(** ** hashlib.sha1

    SHA-1 (FIPS 180-4) on a byte string; 32-bit words are integers
    reduced modulo [2^32]. *)

Module hashlib.
Definition bytes_of (s : string) : list Z :=
  (λ c, Z.of_N (Ascii.N_of_ascii c)) <$> String.list_ascii_of_string s.

Definition w32 (x : Z) : Z := x mod 2 ^ 32.

Definition rotl (n x : Z) : Z :=
  w32 (Z.lor (Z.shiftl x n) (Z.shiftr x (32 - n))).

(** The [n] low bytes of [x], most significant first. *)
Definition be_bytes (n : nat) (x : Z) : list Z :=
  (λ i, Z.shiftr x (8 * Z.of_nat i) mod 256) <$> reverse (seq 0 n).

Definition be_word (bs : list Z) : Z := foldl (λ acc b, acc * 256 + b) 0 bs.

(** A one bit, zeros up to 56 modulo 64, then the bit length on 8 bytes. *)
Definition pad (msg : list Z) : list Z :=
  let l := Z.of_nat (length msg) in
  msg ++ [128] ++ replicate (Z.to_nat ((55 - l) mod 64)) 0
      ++ be_bytes 8 (8 * l).

Fixpoint blocks (n : nat) (bs : list Z) : list (list Z) :=
  match n with
  | O => []
  | S n' => take 64 bs :: blocks n' (drop 64 bs)
  end.

Definition words (blk : list Z) : list Z :=
  (λ i, be_word (take 4 (drop (4 * i) blk))) <$> seq 0 16.

(** Extends the message schedule [w] by [n] words. *)
Fixpoint schedule (n : nat) (w : list Z) : list Z :=
  match n with
  | O => w
  | S n' =>
      let x i := nth (length w - i) w 0 in
      schedule n'
        (w ++ [rotl 1 (Z.lxor (Z.lxor (x 3%nat) (x 8%nat))
                              (Z.lxor (x 14%nat) (x 16%nat)))])
  end.

Definition f (t : nat) (b c d : Z) : Z :=
  if (t <? 20)%nat then Z.lor (Z.land b c) (Z.land (w32 (Z.lnot b)) d)
  else if (t <? 40)%nat then Z.lxor (Z.lxor b c) d
  else if (t <? 60)%nat then
    Z.lor (Z.lor (Z.land b c) (Z.land b d)) (Z.land c d)
  else Z.lxor (Z.lxor b c) d.

Definition K (t : nat) : Z :=
  if (t <? 20)%nat then 0x5A827999
  else if (t <? 40)%nat then 0x6ED9EBA1
  else if (t <? 60)%nat then 0x8F1BBCDC
  else 0xCA62C1D6.

Record state := mk_state { h0 : Z; h1 : Z; h2 : Z; h3 : Z; h4 : Z }.

Definition round (st : state) (tw : nat * Z) : state :=
  let '(mk_state a b c d e) := st in
  let temp := w32 (rotl 5 a + f tw.1 b c d + e + K tw.1 + tw.2) in
  mk_state temp a (rotl 30 b) c d.

Definition compress (h : state) (blk : list Z) : state :=
  let w := schedule 64 (words blk) in
  let r := foldl round h (zip (seq 0 80) w) in
  mk_state (w32 (h0 h + h0 r)) (w32 (h1 h + h1 r)) (w32 (h2 h + h2 r))
           (w32 (h3 h + h3 r)) (w32 (h4 h + h4 r)).

Definition init : state :=
  mk_state 0x67452301 0xEFCDAB89 0x98BADCFE 0x10325476 0xC3D2E1F0.

Definition sha1 (msg : list Z) : state :=
  let padded := pad msg in
  foldl compress init (blocks (length padded / 64) padded).

Definition hexchar (n : Z) : Ascii.ascii :=
  nth (Z.to_nat (n mod 16)) (String.list_ascii_of_string "0123456789abcdef")
      "0"%char.

Definition hex32 (w : Z) : list Ascii.ascii :=
  (λ i, hexchar (Z.shiftr w (4 * i))) <$> [7; 6; 5; 4; 3; 2; 1; 0].

(** [hashlib.sha1(data).hexdigest()] *)
Definition sha1_hexdigest (data : string) : string :=
  let h := sha1 (bytes_of data) in
  String.string_of_list_ascii
    (hex32 (h0 h) ++ hex32 (h1 h) ++ hex32 (h2 h) ++ hex32 (h3 h)
     ++ hex32 (h4 h)).
End hashlib.

Arguments hashlib.sha1_hexdigest : simpl never.

(** ** django.utils.crypto.get_random_string

    [''.join(random.choice(allowed_chars) for i in range(length))]; the
    random source is a stream of draws, [random.choice] takes the draw
    modulo the number of choices. *)

Module crypto.
Definition allowed_chars : list Ascii.ascii :=
  String.list_ascii_of_string
    "abcdefghijklmnopqrstuvwxyzABCDEFGHIJKLMNOPQRSTUVWXYZ0123456789".

Fixpoint get_random_string (length : nat) (g : nat → nat)
  : string * (nat → nat) :=
  match length with
  | O => (EmptyString, g)
  | S n =>
      let c := nth (g 0%nat mod 62)%nat allowed_chars "a"%char in
      let '(s, g') := get_random_string n (λ i, g (S i)) in
      (String c s, g')
  end.
End crypto.

Arguments crypto.get_random_string : simpl never.

(** ** The builtin [dict] on a sequence of pairs

    Inserted left to right, so a later pair replaces an earlier one with
    the same key; [d.get(k)] is the lookup, [None] for a missing key. *)

Definition dict (pairs : list (string * string)) : gmap string string :=
  foldl (λ d kv, <[kv.1 := kv.2]> d) ∅ pairs.

(** ** class Kind *)

Module Kind.
Record t := mk {
  id : Z;
  kind : string;
  slug : string
}.

#[global] Instance eq_dec : EqDecision t.
Proof. solve_decision. Defined.
End Kind.

(** ** class Pet: fields and constants *)

Module Pet.
Record t := mk {
  id : Z;
  owner : Z;
  name : string;
  description : string;
  city : option Z;
  kind : option Z;
  status : string;
  size : string;
  sex : string;
  profile_picture : string;
  published : bool;
  request_sent : option datetime;
  request_key : string;
  active : bool;
  slug : string;
  created : datetime;
  modified : datetime
}.

#[global] Instance eq_dec : EqDecision t.
Proof. solve_decision. Defined.

Definition MISSING : string := "MI".
Definition FOR_ADOPTION : string := "FA".
Definition ADOPTED : string := "AD".
Definition FOUND : string := "FO".

(** Attribute assignment [self.f = v]. *)
Definition set_status (v : string) (p : t) : t :=
  mk (id p) (owner p) (name p) (description p) (city p) (kind p) v
     (size p) (sex p) (profile_picture p) (published p) (request_sent p)
     (request_key p) (active p) (slug p) (created p) (modified p).

Definition set_request_sent (v : option datetime) (p : t) : t :=
  mk (id p) (owner p) (name p) (description p) (city p) (kind p) (status p)
     (size p) (sex p) (profile_picture p) (published p) v
     (request_key p) (active p) (slug p) (created p) (modified p).

Definition set_request_key (v : string) (p : t) : t :=
  mk (id p) (owner p) (name p) (description p) (city p) (kind p) (status p)
     (size p) (sex p) (profile_picture p) (published p) (request_sent p)
     v (active p) (slug p) (created p) (modified p).

Definition set_active (v : bool) (p : t) : t :=
  mk (id p) (owner p) (name p) (description p) (city p) (kind p) (status p)
     (size p) (sex p) (profile_picture p) (published p) (request_sent p)
     (request_key p) v (slug p) (created p) (modified p).

Definition set_modified (v : datetime) (p : t) : t :=
  mk (id p) (owner p) (name p) (description p) (city p) (kind p) (status p)
     (size p) (sex p) (profile_picture p) (published p) (request_sent p)
     (request_key p) (active p) (slug p) (created p) v.

(** [found_or_adopted] and [is_found_or_adopted]. *)
Definition found_or_adopted (self : t) : bool :=
  bool_decide (status self = ADOPTED) || bool_decide (status self = FOUND).

Definition is_found_or_adopted (self : t) : bool :=
  bool_decide (status self ∈ [ADOPTED; FOUND]).

Definition MALE : string := "MA".
Definition FEMALE : string := "FE".
Definition SMALL : string := "SM".
Definition MEDIUM : string := "MD".
Definition LARGE : string := "LG".

Section choices.
(** [ugettext_lazy], the translation of a label. *)
Variable gettext : string → string.

Definition PET_SEX : list (string * string) :=
  [(FEMALE, gettext "Female"); (MALE, gettext "Male")].

Definition PET_SIZE : list (string * string) :=
  [(SMALL, gettext "Small"); (MEDIUM, gettext "Medium");
   (LARGE, gettext "Large")].

Definition PET_STATUS : list (string * string) :=
  [(MISSING, gettext "Missing"); (FOR_ADOPTION, gettext "For Adoption");
   (ADOPTED, gettext "Adopted"); (FOUND, gettext "Found")].

Definition get_status (self : t) : option string :=
  dict PET_STATUS !! status self.

Definition get_sex (self : t) : option string :=
  dict PET_SEX !! sex self.

Definition get_size (self : t) : option string :=
  dict PET_SIZE !! size self.
End choices.

(** The state the lifecycle methods run in: the Pet table, the mail
    system behind [meupet.services], and the random source. *)
Record World (Outbox : Type) := mk_world {
  table : gmap Z t;
  outbox : Outbox;
  entropy : nat → nat
}.
Arguments mk_world {Outbox}.
Arguments table {Outbox}.
Arguments outbox {Outbox}.
Arguments entropy {Outbox}.

(** Modelled from the spec: [TimeStampedModel.save] of django_extensions
    is not under src/.  It persists the instance under its primary key;
    the modification timestamp is set to the current time, on the
    instance and in the row, unless the call passes
    [update_modified=False]. *)
Definition save {Outbox} (update_modified : bool) (now : datetime)
    (self : t) (w : World Outbox) : t * World Outbox :=
  let self := if update_modified then set_modified now self else self in
  (self, mk_world (<[id self := self]> (table w)) (outbox w) (entropy w)).

Section lifecycle.
Context {Outbox : Type}.
(** [meupet.services]: each sender is handed the pet, reports success or
    failure, and may change the mail system. *)
Variable send_request_action_email : t → Outbox → bool * Outbox.
Variable send_deactivate_email : t → Outbox → bool * Outbox.

Definition change_status (now : datetime) (self : t) (w : World Outbox)
  : t * World Outbox :=
  let self :=
    set_status (if bool_decide (status self = MISSING) then FOUND
                else ADOPTED) self in
  save true now self w.

Definition request_action (now : datetime) (self : t) (w : World Outbox)
  : t * World Outbox :=
  let '(seed, g) := crypto.get_random_string 5 (entropy w) in
  let hash_input := String.append seed (name self) in
  let self := set_request_key (hashlib.sha1_hexdigest hash_input) self in
  let '(ok, o) := send_request_action_email self (outbox w) in
  let w := mk_world (table w) o g in
  if negb ok then (self, w)
  else
    let self := set_request_sent (Some now) self in
    save false now self w.

Definition activate (now : datetime) (self : t) (w : World Outbox)
  : t * World Outbox :=
  let self := set_request_sent None self in
  let self := set_request_key EmptyString self in
  let self := set_active true self in
  save true now self w.

Definition deactivate (now : datetime) (self : t) (w : World Outbox)
  : t * World Outbox :=
  let '(ok, o) := send_deactivate_email self (outbox w) in
  let w := mk_world (table w) o (entropy w) in
  if negb ok then (self, w)
  else
    let self := set_active false self in
    save false now self w.
End lifecycle.
End Pet.

(** ** class PetQuerySet *)

Module PetQuerySet.
Section queries.
(** The builtin [int] on a [str]: [Some n] when it returns [n],
    [None] when it raises [ValueError]. *)
Variable int : string → option Z.
(** The rows of the Kind table, which the [kind__slug] lookup joins. *)
Variable kinds : list Kind.t.
(** [timezone.now()] and [settings.DAYS_TO_STALE_REGISTER]. *)
Variable now : datetime.
Variable DAYS_TO_STALE_REGISTER : Z.

Definition actives (self : list Pet.t) : list Pet.t :=
  filter (λ p, Pet.active p = true) self.

(** [kind__slug=s]: the pet's kind row has slug [s]. *)
Definition kind__slug (s : string) (p : Pet.t) : Prop :=
  Exists (λ k, Pet.kind p = Some (Kind.id k) ∧ Kind.slug k = s) kinds.

#[global] Instance kind__slug_dec s p : Decision (kind__slug s p).
Proof. unfold kind__slug. apply _. Defined.

(** [select_related('city')] only prefetches; it yields the same rows. *)
Definition _filter_by_kind (self : list Pet.t) (kind : string)
  : list Pet.t :=
  match int kind with
  | Some n => filter (λ p, Pet.kind p = Some n) (actives self)
  | None => filter (kind__slug kind) (actives self)
  end.

Definition get_lost_or_found (self : list Pet.t) (kind : string)
  : list Pet.t :=
  filter (λ p, Pet.status p ∈ [Pet.MISSING; Pet.FOUND])
         (_filter_by_kind self kind).

Definition get_for_adoption_adopted (self : list Pet.t) (kind : string)
  : list Pet.t :=
  filter (λ p, Pet.status p ∈ [Pet.FOR_ADOPTION; Pet.ADOPTED])
         (_filter_by_kind self kind).

Definition get_unpublished_pets (self : list Pet.t) : list Pet.t :=
  filter (λ p, Pet.published p = false) self.

Definition get_staled_pets (self : list Pet.t) : list Pet.t :=
  let stale_date := now - timedelta DAYS_TO_STALE_REGISTER in
  filter (λ p, Pet.modified p < stale_date
               ∧ Pet.request_sent p = None
               ∧ Pet.status p ∈ [Pet.MISSING; Pet.FOR_ADOPTION]) self.

(** [request_sent__lt=d]: a NULL column satisfies no comparison. *)
Definition request_sent__lt (d : datetime) (p : Pet.t) : Prop :=
  match Pet.request_sent p with
  | Some sent => sent < d
  | None => False
  end.

#[global] Instance request_sent__lt_dec d p :
  Decision (request_sent__lt d p).
Proof. unfold request_sent__lt. destruct (Pet.request_sent p); apply _. Defined.

Definition get_expired_pets (self : list Pet.t) : list Pet.t :=
  let expire_date := now - timedelta DAYS_TO_STALE_REGISTER in
  filter (request_sent__lt expire_date) self.
End queries.
End PetQuerySet.

(** ** class KindManager

    [count_pets] is one SQL query: the Kind table joined with the Pet
    table on the foreign key, the two conditions of the single [filter]
    call applied to the joined pet, [Count('pet')] over the rows grouped
    by kind, and [order_by('kind')], ascending on the [kind] column
    (compared byte by byte). *)

Module KindManager.
Section manager.
Variable kinds : list Kind.t.
Variable pets : list Pet.t.

(** Kind INNER JOIN Pet ON pet.kind_id = kind.id *)
Definition join : list (Kind.t * Pet.t) :=
  k ← kinds;
  (λ p, (k, p)) <$> filter (λ p, Pet.kind p = Some (Kind.id k)) pets.

(** GROUP BY kind, with the number of rows of each group. *)
Definition annotate_count (rows : list (Kind.t * Pet.t))
  : list (Kind.t * nat) :=
  (λ k, (k, length (filter (λ r, r.1 = k) rows))) <$> remove_dups (rows.*1).

Definition order_by_kind (rows : list (Kind.t * nat)) : list (Kind.t * nat) :=
  merge_sort (λ a b, String.le (Kind.kind a.1) (Kind.kind b.1)) rows.

(** [filter(pet__status__in=status, pet__active=True)]: both conditions
    on the same joined pet. *)
Definition filter_pet (status : list string) : list (Kind.t * Pet.t) :=
  filter (λ r, Pet.status r.2 ∈ status ∧ Pet.active r.2 = true) join.

Definition count_pets (status : list string) : list (Kind.t * nat) :=
  order_by_kind (annotate_count (filter_pet status)).

Definition lost_kinds : list (Kind.t * nat) :=
  count_pets [Pet.MISSING; Pet.FOUND].

Definition adoption_kinds : list (Kind.t * nat) :=
  count_pets [Pet.FOR_ADOPTION; Pet.ADOPTED].
End manager.
End KindManager.

(** ** The plain-decimal fragment of the builtin [int]

    An optional sign followed by one or more ASCII digits, on which it
    returns what the builtin returns.  The builtin also accepts
    surrounding whitespace, underscores between digits and digits
    outside ASCII; this fragment answers [None] there and is not meant
    for such strings.  The queries take the parser as an argument, and
    every theorem holds for any parser; this instance serves the
    examples, at identifiers inside the fragment. *)

Module builtins.
Definition digit (c : ascii) : option Z :=
  let n := Z.of_N (N_of_ascii c) in
  if bool_decide (48 ≤ n ≤ 57) then Some (n - 48) else None.

Fixpoint digits (acc : Z) (s : string) : option Z :=
  match s with
  | EmptyString => Some acc
  | String c s' => d ← digit c; digits (10 * acc + d) s'
  end.

Definition unsigned (s : string) : option Z :=
  match s with
  | EmptyString => None
  | _ => digits 0 s
  end.

Definition int (s : string) : option Z :=
  match s with
  | String "-" s' => Z.opp <$> unsigned s'
  | String "+" s' => unsigned s'
  | _ => unsigned s
  end.
End builtins.

(** ** The claims of the specification as it words them *)

(** [get_staled_pets] yields exactly the active pets with a status in
    {Missing, ForAdoption}, no [request_sent], and a modification time
    before [now - days]. *)
Definition staled_as_stated (now : datetime) (days : Z) (qs : list Pet.t)
  : Prop :=
  ∀ p, p ∈ PetQuerySet.get_staled_pets now days qs ↔
       p ∈ qs ∧ Pet.active p = true
       ∧ Pet.status p ∈ [Pet.MISSING; Pet.FOR_ADOPTION]
       ∧ Pet.request_sent p = None
       ∧ Pet.modified p < now - timedelta days.

(** The counts come ordered by kind identifier: by numeric id, or by
    slug. *)
Definition ordered_by_id (rows : list (Kind.t * nat)) : Prop :=
  Sorted (λ a b, Kind.id a.1 ≤ Kind.id b.1) rows.

Definition ordered_by_slug (rows : list (Kind.t * nat)) : Prop :=
  Sorted (λ a b, String.le (Kind.slug a.1) (Kind.slug b.1)) rows.

Definition ordered_by_identifier (rows : list (Kind.t * nat)) : Prop :=
  ordered_by_id rows ∨ ordered_by_slug rows.

(** What the code orders by: the [kind] column, the name. *)
Definition ordered_by_name (rows : list (Kind.t * nat)) : Prop :=
  StronglySorted (λ a b, String.le (Kind.kind a.1) (Kind.kind b.1)) rows.

(** The pets a kind is counted for: those of that kind that are active
    and have a status of the set. *)
Definition counted (status : list string) (k : Kind.t) (p : Pet.t) : Prop :=
  Pet.kind p = Some (Kind.id k) ∧ Pet.status p ∈ status
  ∧ Pet.active p = true.

#[global] Instance counted_dec status k p : Decision (counted status k p).
Proof. unfold counted. apply _. Defined.

(** The state of the lifecycle state machine: status, [active], and
    whether [request_sent] is set. *)
Definition lifecycle_state (p : Pet.t) : string * bool * bool :=
  (Pet.status p, Pet.active p, bool_decide (is_Some (Pet.request_sent p))).

(** A lowercase hexadecimal digit. *)
Definition is_hexdigit (c : ascii) : Prop :=
  c ∈ String.list_ascii_of_string "0123456789abcdef".

(** The fields no lifecycle method assigns. *)
Definition fixed_fields (p : Pet.t) :=
  (Pet.id p, Pet.owner p, Pet.name p, Pet.description p, Pet.city p,
   Pet.kind p, Pet.size p, Pet.sex p, Pet.profile_picture p,
   Pet.published p, Pet.slug p, Pet.created p).

(** The pet's foreign key names a row of the Kind table. *)
Definition has_kind (kinds : list Kind.t) (p : Pet.t) : Prop :=
  Exists (λ k, Pet.kind p = Some (Kind.id k)) kinds.

#[global] Instance has_kind_dec kinds p : Decision (has_kind kinds p).
Proof. unfold has_kind. apply _. Defined.

(** The identifier [kind] selects kind [k]: it parses to its id, or it
    does not parse and is the slug of [k] and of no other kind. *)
Definition selects (int : string → option Z) (kinds : list Kind.t)
    (kind : string) (k : Kind.t) : Prop :=
  match int kind with
  | Some n => n = Kind.id k
  | None => Kind.slug k = kind
            ∧ ∀ k', k' ∈ kinds → Kind.slug k' = kind → Kind.id k' = Kind.id k
  end.

(** The request key is empty or a digest of 40 hexadecimal digits, and
    it is not empty while a request is pending. *)
Definition key_invariant (p : Pet.t) : Prop :=
  (Pet.request_key p = EmptyString
   ∨ String.length (Pet.request_key p) = 40%nat
     ∧ Forall is_hexdigit (String.list_ascii_of_string (Pet.request_key p)))
  ∧ (is_Some (Pet.request_sent p) → Pet.request_key p ≠ EmptyString).

(** The four status codes of [PET_STATUS]. *)
Definition status_codes : list string :=
  [Pet.MISSING; Pet.FOR_ADOPTION; Pet.ADOPTED; Pet.FOUND].

(** The same method called once per entry of [nows], at those times, on
    the instance and the state the previous call left. *)
Fixpoint calls {Outbox}
    (method : datetime → Pet.t → Pet.World Outbox → Pet.t * Pet.World Outbox)
    (nows : list datetime) (self : Pet.t) (w : Pet.World Outbox)
  : Pet.t * Pet.World Outbox :=
  match nows with
  | [] => (self, w)
  | now :: rest => let '(self', w') := method now self w in
                   calls method rest self' w'
  end.

(** A run of lifecycle calls on one instance: each entry names the
    method and the time of the call, and each call works on the instance
    and the state the previous one left. *)
Inductive method := ChangeStatus | RequestAction | Activate | Deactivate.

Definition call {Outbox}
    (send_request_action_email send_deactivate_email
       : Pet.t → Outbox → bool * Outbox)
    (m : method) : datetime → Pet.t → Pet.World Outbox
                   → Pet.t * Pet.World Outbox :=
  match m with
  | ChangeStatus => Pet.change_status
  | RequestAction => Pet.request_action send_request_action_email
  | Activate => Pet.activate
  | Deactivate => Pet.deactivate send_deactivate_email
  end.

Fixpoint run {Outbox}
    (send_request_action_email send_deactivate_email
       : Pet.t → Outbox → bool * Outbox)
    (ops : list (method * datetime)) (self : Pet.t) (w : Pet.World Outbox)
  : Pet.t * Pet.World Outbox :=
  match ops with
  | [] => (self, w)
  | (m, now) :: rest =>
      let '(self', w') :=
        call send_request_action_email send_deactivate_email m now self w in
      run send_request_action_email send_deactivate_email rest self' w'
  end.

(** ** Sample rows *)

Definition day : Z := timedelta 1.

Definition rex : Pet.t :=
  Pet.mk 1 10 "Rex" "brown dog" (Some 5) (Some 1) Pet.MISSING "MD" "MA"
         "pet_profiles/rex.jpg" false None EmptyString true "rex-sao-paulo"
         0 (100 * day).

(** A mail system that logs the recipients, one sender that delivers and
    one that fails. *)
Definition delivers (p : Pet.t) (o : list string) : bool * list string :=
  (true, Pet.name p :: o).

Definition fails (p : Pet.t) (o : list string) : bool * list string :=
  (false, o).

Definition world0 : Pet.World (list string) :=
  Pet.mk_world {[ 1 := rex ]} [] (λ i, (7 * i + 3)%nat).

(** A pet whose removal request was sent on day 140. *)
Definition tom : Pet.t :=
  Pet.mk 2 11 "Tom" "grey cat" None (Some 2) Pet.FOR_ADOPTION "SM" "MA"
         "pet_profiles/tom.jpg" true (Some (140 * day))
         "0000000000000000000000000000000000000000" true "tom-" 0 (90 * day).

Definition world1 : Pet.World (list string) :=
  Pet.mk_world {[ 1 := rex; 2 := tom ]} [] (λ i, (7 * i + 3)%nat).

Definition dog : Kind.t := Kind.mk 1 "dog" "dog".
Definition cat : Kind.t := Kind.mk 2 "cat" "cat".
(** A kind created as "zebra" and renamed since: the slug is populated
    once, from the first name. *)
Definition ant : Kind.t := Kind.mk 3 "ant" "zebra".
(** A kind no pet has. *)
Definition emu : Kind.t := Kind.mk 4 "emu" "emu".

(** A kind whose slug reads as a number. *)
Definition seven : Kind.t := Kind.mk 5 "seven" "7".

Definition kinds0 : list Kind.t := [dog; cat; ant; emu].

Definition pet_of (i : Z) (k : Kind.t) (status : string) (active : bool)
  : Pet.t :=
  Pet.mk i 10 "Bob" "a pet" None (Some (Kind.id k)) status "SM" "FE"
         "pet_profiles/bob.jpg" true None EmptyString active "bob-" 0 0.

Definition pets0 : list Pet.t :=
  [ pet_of 9 dog Pet.MISSING true; pet_of 8 cat Pet.FOUND true;
    pet_of 7 dog Pet.FOUND true; pet_of 6 ant Pet.MISSING true;
    pet_of 5 dog Pet.ADOPTED true; pet_of 4 cat Pet.MISSING false;
    pet_of 3 emu Pet.ADOPTED true; pet_of 2 emu Pet.MISSING false ].

Example sha1_abc :
  hashlib.sha1_hexdigest "abc" = "a9993e364706816aba3e25717850c26c9cd0d89d".
Proof. vm_compute. reflexivity. Qed.

Example sha1_empty :
  hashlib.sha1_hexdigest EmptyString
  = "da39a3ee5e6b4b0d3255bfef95601890afd80709".
Proof. vm_compute. reflexivity. Qed.

Example sha1_two_blocks :
  hashlib.sha1_hexdigest
    "abcdbcdecdefdefgefghfghighijhijkijkljklmklmnlmnomnopnopq"
  = "84983e441c3bd26ebaae4aa1f95129e5e54670f1".
Proof. vm_compute. reflexivity. Qed.

Example int_7 : builtins.int "7" = Some 7.
Proof. reflexivity. Qed.

Example int_minus_12 : builtins.int "-12" = Some (-12).
Proof. reflexivity. Qed.

Example int_slug : builtins.int "dog" = None.
Proof. reflexivity. Qed.

Example int_empty : builtins.int EmptyString = None.
Proof. reflexivity. Qed.

(** * The query layer *)

Example filter_by_kind_id :
  PetQuerySet._filter_by_kind builtins.int (seven :: kinds0)
    [pet_of 1 seven Pet.MISSING true; pet_of 2 cat Pet.MISSING true;
     pet_of 3 cat Pet.FOUND false] "2"
  = [pet_of 2 cat Pet.MISSING true].
Proof. vm_compute. reflexivity. Qed.

Example filter_by_kind_slug :
  PetQuerySet._filter_by_kind builtins.int (seven :: kinds0)
    [pet_of 1 seven Pet.MISSING true; pet_of 2 cat Pet.MISSING true;
     pet_of 3 cat Pet.FOUND false] "cat"
  = [pet_of 2 cat Pet.MISSING true].
Proof. vm_compute. reflexivity. Qed.

(** "7" parses: kind 5, whose slug is "7", is not looked up by slug. *)
Example filter_by_kind_numeric_slug :
  PetQuerySet._filter_by_kind builtins.int (seven :: kinds0)
    [pet_of 1 seven Pet.MISSING true; pet_of 2 cat Pet.MISSING true;
     pet_of 3 cat Pet.FOUND false] "7"
  = [].
Proof. vm_compute. reflexivity. Qed.

Section query_layer.
Variable int : string → option Z.
Variable kinds : list Kind.t.
Variable now : datetime.
Variable days : Z.
Implicit Types (qs : list Pet.t) (p : Pet.t) (kind : string).

Lemma elem_of_actives qs p :
  p ∈ PetQuerySet.actives qs ↔ p ∈ qs ∧ Pet.active p = true.
Proof. unfold PetQuerySet.actives. rewrite list_elem_of_filter. tauto. Qed.

Lemma kind__slug_iff kind p :
  PetQuerySet.kind__slug kinds kind p ↔
  ∃ k, k ∈ kinds ∧ Pet.kind p = Some (Kind.id k) ∧ Kind.slug k = kind.
Proof. unfold PetQuerySet.kind__slug. rewrite Exists_exists. naive_solver. Qed.

Lemma elem_of_filter_by_kind qs kind p :
  p ∈ PetQuerySet._filter_by_kind int kinds qs kind ↔
  p ∈ qs ∧ Pet.active p = true
  ∧ match int kind with
    | Some n => Pet.kind p = Some n
    | None => ∃ k, k ∈ kinds ∧ Pet.kind p = Some (Kind.id k)
                   ∧ Kind.slug k = kind
    end.
Proof.
  unfold PetQuerySet._filter_by_kind.
  destruct (int kind) as [n|];
    rewrite list_elem_of_filter, elem_of_actives, ?kind__slug_iff; tauto.
Qed.

Lemma track_statuses_disjoint (s : string) :
  s ∈ [Pet.MISSING; Pet.FOUND] → s ∈ [Pet.FOR_ADOPTION; Pet.ADOPTED] → False.
Proof.
  unfold Pet.MISSING, Pet.FOUND, Pet.FOR_ADOPTION, Pet.ADOPTED.
  rewrite !elem_of_cons, !elem_of_nil.
  intros [->|[->|[]]] [?|[?|[]]]; discriminate.
Qed.

(** C1, as the code has it: [get_staled_pets] yields exactly the rows of
    the queryset whose status is Missing or ForAdoption, whose
    [request_sent] is unset and whose modification time is before
    [now - days], in queryset order, whatever their [active] flag. *)
Theorem get_staled_pets_exact qs p :
  (p ∈ PetQuerySet.get_staled_pets now days qs ↔
     p ∈ qs
     ∧ Pet.status p ∈ [Pet.MISSING; Pet.FOR_ADOPTION]
     ∧ Pet.request_sent p = None
     ∧ Pet.modified p < now - timedelta days)
  ∧ sublist (PetQuerySet.get_staled_pets now days qs) qs.
Proof.
  unfold PetQuerySet.get_staled_pets. split.
  - rewrite list_elem_of_filter. tauto.
  - apply sublist_filter.
Qed.

(** C2: [_filter_by_kind] yields, in queryset order, exactly the rows of
    the queryset that are active and whose kind id is the parsed number
    when the identifier parses, and exactly the rows of the queryset
    that are active and whose kind row has the identifier as slug when
    it does not; a row matching only through the other lookup is left
    out, and every row it yields is an active row of the queryset. *)
Theorem filter_by_kind_dispatch qs kind p :
  (p ∈ PetQuerySet._filter_by_kind int kinds qs kind →
     p ∈ qs ∧ Pet.active p = true)
  ∧ (∀ n, int kind = Some n →
       (p ∈ PetQuerySet._filter_by_kind int kinds qs kind ↔
          p ∈ qs ∧ Pet.active p = true ∧ Pet.kind p = Some n)
       ∧ (Pet.kind p ≠ Some n →
          p ∉ PetQuerySet._filter_by_kind int kinds qs kind))
  ∧ (int kind = None →
       (p ∈ PetQuerySet._filter_by_kind int kinds qs kind ↔
          p ∈ qs ∧ Pet.active p = true
          ∧ ∃ k, k ∈ kinds ∧ Pet.kind p = Some (Kind.id k)
                 ∧ Kind.slug k = kind)
       ∧ ((∀ k, k ∈ kinds → Pet.kind p = Some (Kind.id k) →
                Kind.slug k ≠ kind) →
          p ∉ PetQuerySet._filter_by_kind int kinds qs kind))
  ∧ sublist (PetQuerySet._filter_by_kind int kinds qs kind) qs.
Proof.
  split; [|split; [|split]].
  - rewrite elem_of_filter_by_kind. tauto.
  - intros n Hn. rewrite elem_of_filter_by_kind, Hn. tauto.
  - intros Hn. rewrite elem_of_filter_by_kind, Hn.
    split; [tauto|]. intros Hno (_ & _ & k & Hk & Hfk & Hslug).
    exact (Hno k Hk Hfk Hslug).
  - unfold PetQuerySet._filter_by_kind, PetQuerySet.actives.
    destruct (int kind).
    + etrans; [apply sublist_filter|apply sublist_filter].
    + etrans; [apply sublist_filter|apply sublist_filter].
Qed.

(** C7: the rows of [get_lost_or_found] have a status in {Missing,
    Found}, the rows of [get_for_adoption_adopted] a status in
    {ForAdoption, Adopted}, and no row is in both results, for any two
    kind identifiers. *)
Theorem tracks_disjoint qs kind kind' :
  (∀ p, p ∈ PetQuerySet.get_lost_or_found int kinds qs kind →
        Pet.status p ∈ [Pet.MISSING; Pet.FOUND])
  ∧ (∀ p, p ∈ PetQuerySet.get_for_adoption_adopted int kinds qs kind' →
          Pet.status p ∈ [Pet.FOR_ADOPTION; Pet.ADOPTED])
  ∧ (∀ p, p ∈ PetQuerySet.get_lost_or_found int kinds qs kind →
          p ∉ PetQuerySet.get_for_adoption_adopted int kinds qs kind').
Proof.
  unfold PetQuerySet.get_lost_or_found, PetQuerySet.get_for_adoption_adopted.
  repeat split.
  - intros p [Hst _]%list_elem_of_filter. exact Hst.
  - intros p [Hst _]%list_elem_of_filter. exact Hst.
  - intros p [Hl _]%list_elem_of_filter [Ha _]%list_elem_of_filter.
    exact (track_statuses_disjoint _ Hl Ha).
Qed.

(** C8: [actives] yields exactly the rows with [active = True], so never
    an inactive one; [get_unpublished_pets] yields exactly the rows with
    [published = False], whatever their [active] flag, and there is a
    queryset from which it yields an active and an inactive pet. *)
Theorem actives_and_unpublished qs p :
  (p ∈ PetQuerySet.actives qs ↔ p ∈ qs ∧ Pet.active p = true)
  ∧ (Pet.active p = false → p ∉ PetQuerySet.actives qs)
  ∧ (p ∈ PetQuerySet.get_unpublished_pets qs ↔
       p ∈ qs ∧ Pet.published p = false)
  ∧ (∃ a b, a ∈ PetQuerySet.get_unpublished_pets [a; b]
            ∧ b ∈ PetQuerySet.get_unpublished_pets [a; b]
            ∧ Pet.active a = true ∧ Pet.active b = false).
Proof.
  rewrite elem_of_actives. unfold PetQuerySet.get_unpublished_pets.
  rewrite list_elem_of_filter. repeat split; try tauto.
  - intros Hf [_ Ht]. congruence.
  - exists rex, (Pet.set_active false rex).
    repeat split; apply list_elem_of_filter; (split; [reflexivity|]);
      set_solver.
Qed.
End query_layer.

(** C10: [found_or_adopted] and [is_found_or_adopted] agree on every
    pet, and hold exactly when the status is Adopted or Found. *)
Theorem found_or_adopted_agree (self : Pet.t) :
  Pet.found_or_adopted self = Pet.is_found_or_adopted self
  ∧ (Pet.found_or_adopted self = true ↔
       Pet.status self = Pet.ADOPTED ∨ Pet.status self = Pet.FOUND)
  ∧ (Pet.is_found_or_adopted self = true ↔
       Pet.status self = Pet.ADOPTED ∨ Pet.status self = Pet.FOUND).
Proof.
  assert (Hin : Pet.status self ∈ [Pet.ADOPTED; Pet.FOUND] ↔
                Pet.status self = Pet.ADOPTED ∨ Pet.status self = Pet.FOUND).
  { rewrite !elem_of_cons, elem_of_nil. tauto. }
  unfold Pet.found_or_adopted, Pet.is_found_or_adopted. split; [|split].
  - apply eq_true_iff_eq.
    rewrite orb_true_iff, !bool_decide_eq_true. symmetry. exact Hin.
  - rewrite orb_true_iff, !bool_decide_eq_true. tauto.
  - rewrite bool_decide_eq_true. exact Hin.
Qed.

(** The inactive twin of a stale pet is in the result of
    [get_staled_pets 30]: the claim as stated fails on it. *)
Lemma staled_as_stated_fails :
  ¬ staled_as_stated (131 * day) 30 [Pet.set_active false rex].
Proof.
  intros H. destruct (H (Pet.set_active false rex)) as [Hin _].
  destruct Hin as (_ & Hact & _); [|discriminate Hact].
  apply list_elem_of_filter. split; [|set_solver].
  split; [reflexivity|]. split; [reflexivity|]. set_solver.
Qed.

(** The scenario of the specification, 31 days after the last change. *)
Example staled_scenario :
  PetQuerySet.get_staled_pets (131 * day) 30
    [rex; Pet.set_status Pet.ADOPTED rex] = [rex].
Proof. vm_compute. reflexivity. Qed.

Example staled_inactive :
  PetQuerySet.get_staled_pets (131 * day) 30 [Pet.set_active false rex]
  = [Pet.set_active false rex].
Proof. vm_compute. reflexivity. Qed.

(** * hashlib and crypto *)

Lemma length_string_of_list_ascii (l : list ascii) :
  String.length (String.string_of_list_ascii l) = length l.
Proof. induction l as [|c l IH]; simpl; [reflexivity|]. now rewrite IH. Qed.

Lemma hexchar_is_hexdigit (n : Z) : is_hexdigit (hashlib.hexchar n).
Proof.
  unfold is_hexdigit, hashlib.hexchar. apply list_elem_of_In, nth_In.
  assert (0 ≤ n mod 16 < 16) by (apply Z.mod_pos_bound; lia).
  simpl. lia.
Qed.

Lemma hex32_is_hexdigit (w : Z) : Forall is_hexdigit (hashlib.hex32 w).
Proof.
  unfold hashlib.hex32. apply Forall_fmap, Forall_forall.
  intros i _. apply hexchar_is_hexdigit.
Qed.

Lemma sha1_hexdigest_length (data : string) :
  String.length (hashlib.sha1_hexdigest data) = 40%nat.
Proof.
  unfold hashlib.sha1_hexdigest.
  rewrite length_string_of_list_ascii, !length_app.
  unfold hashlib.hex32. rewrite !length_fmap. reflexivity.
Qed.

Lemma sha1_hexdigest_hex (data : string) :
  Forall is_hexdigit (String.list_ascii_of_string (hashlib.sha1_hexdigest data)).
Proof.
  unfold hashlib.sha1_hexdigest.
  rewrite String.list_ascii_of_string_of_list_ascii.
  rewrite !Forall_app. repeat split; apply hex32_is_hexdigit.
Qed.

Lemma get_random_string_S (n : nat) (g : nat → nat) :
  crypto.get_random_string (S n) g
  = let c := nth (g 0%nat mod 62)%nat crypto.allowed_chars "a"%char in
    let '(s, g') := crypto.get_random_string n (λ i, g (S i)) in
    (String c s, g').
Proof. reflexivity. Qed.

Lemma get_random_string_length (n : nat) (g : nat → nat) :
  String.length (crypto.get_random_string n g).1 = n.
Proof.
  revert g. induction n as [|n IH]; intros g; [reflexivity|].
  rewrite get_random_string_S. specialize (IH (λ i, g (S i))).
  destruct (crypto.get_random_string n _) as [s g'].
  cbn [fst String.length] in *. now rewrite IH.
Qed.

Lemma get_random_string_advances (n : nat) (g : nat → nat) (i : nat) :
  (crypto.get_random_string n g).2 i = g (n + i)%nat.
Proof.
  revert g. induction n as [|n IH]; intros g; [reflexivity|].
  rewrite get_random_string_S. specialize (IH (λ i, g (S i))).
  destruct (crypto.get_random_string n _) as [s g'].
  cbn [snd] in *. rewrite IH. reflexivity.
Qed.

Lemma get_random_string_alphabet (n : nat) (g : nat → nat) :
  Forall (λ c, c ∈ crypto.allowed_chars)
         (String.list_ascii_of_string (crypto.get_random_string n g).1).
Proof.
  revert g. induction n as [|n IH]; intros g; [constructor|].
  rewrite get_random_string_S. specialize (IH (λ i, g (S i))).
  destruct (crypto.get_random_string n _) as [s g'].
  cbn [fst String.list_ascii_of_string] in *.
  constructor; [|exact IH].
  apply list_elem_of_In, nth_In.
  change (length crypto.allowed_chars) with 62%nat.
  apply Nat.mod_upper_bound. discriminate.
Qed.

(** * The lifecycle methods *)

Section lifecycle_facts.
Context {Outbox : Type}.
Variable send_request_action_email : Pet.t → Outbox → bool * Outbox.
Variable send_deactivate_email : Pet.t → Outbox → bool * Outbox.
Implicit Types (self : Pet.t) (w : Pet.World Outbox) (now : datetime).

Lemma save_spec (update_modified : bool) now self w :
  let r := Pet.save update_modified now self w in
  r.1 = (if update_modified then Pet.set_modified now self else self)
  ∧ Pet.table r.2 = <[Pet.id self := r.1]> (Pet.table w)
  ∧ Pet.table r.2 !! Pet.id self = Some r.1
  ∧ (∀ i, i ≠ Pet.id self → Pet.table r.2 !! i = Pet.table w !! i)
  ∧ Pet.outbox r.2 = Pet.outbox w
  ∧ Pet.entropy r.2 = Pet.entropy w.
Proof.
  destruct update_modified; cbn; repeat split;
    try apply lookup_insert_eq; intros; by apply lookup_insert_ne.
Qed.

Lemma change_status_status now self w :
  Pet.status (Pet.change_status now self w).1
  = if bool_decide (Pet.status self = Pet.MISSING) then Pet.FOUND
    else Pet.ADOPTED.
Proof. reflexivity. Qed.

Lemma change_status_leaves_missing now self w :
  Pet.status (Pet.change_status now self w).1 ≠ Pet.MISSING.
Proof. rewrite change_status_status. case_bool_decide; discriminate. Qed.

Lemma calls_cons
    (method : datetime → Pet.t → Pet.World Outbox → Pet.t * Pet.World Outbox)
    now (nows : list datetime) self w :
  calls method (now :: nows) self w
  = calls method nows (method now self w).1 (method now self w).2.
Proof. simpl. by destruct (method now self w). Qed.

Lemma calls_change_status_stays (nows : list datetime) self w :
  Pet.status self ≠ Pet.MISSING →
  Pet.status (calls Pet.change_status nows self w).1 ≠ Pet.MISSING.
Proof.
  revert self w. induction nows as [|now nows IH]; intros self w Hne.
  - exact Hne.
  - rewrite calls_cons. apply IH, change_status_leaves_missing.
Qed.

(** C5: [change_status] sets the status to Found when it is Missing and
    to Adopted otherwise, and saves the pet; from Missing the first call
    gives Found and the second Adopted, and after one call or more the
    status is never Missing again. *)
Theorem change_status_toggle now now' (nows : list datetime) self w :
  let once := Pet.change_status now self w in
  let twice := Pet.change_status now' once.1 once.2 in
  (Pet.status self = Pet.MISSING → Pet.status once.1 = Pet.FOUND)
  ∧ (Pet.status self ≠ Pet.MISSING → Pet.status once.1 = Pet.ADOPTED)
  ∧ Pet.table once.2 !! Pet.id self = Some once.1
  ∧ Pet.status twice.1 = Pet.ADOPTED
  ∧ Pet.table twice.2 !! Pet.id self = Some twice.1
  ∧ (nows ≠ [] →
     Pet.status (calls Pet.change_status nows self w).1 ≠ Pet.MISSING).
Proof.
  intros once twice. subst once twice. rewrite !change_status_status.
  repeat split.
  - intros ->. reflexivity.
  - intros Hne. by rewrite bool_decide_eq_false_2.
  - apply lookup_insert_eq.
  - repeat case_bool_decide; try reflexivity; discriminate.
  - apply lookup_insert_eq.
  - destruct nows as [|t nows]; [done|]. intros _.
    rewrite calls_cons.
    apply calls_change_status_stays, change_status_leaves_missing.
Qed.

(** C6: after [activate], and after a second [activate] right behind it,
    [request_sent] is unset, [request_key] is empty and [active] is set,
    on the instance and in its row; the second call changes nothing but
    the modification timestamp, which [save] sets to the time of the
    call. *)
Theorem activate_idempotent now now' self w :
  let once := Pet.activate now self w in
  let twice := Pet.activate now' once.1 once.2 in
  (Pet.request_sent once.1 = None ∧ Pet.request_key once.1 = EmptyString
   ∧ Pet.active once.1 = true
   ∧ Pet.table once.2 !! Pet.id self = Some once.1)
  ∧ (Pet.request_sent twice.1 = None ∧ Pet.request_key twice.1 = EmptyString
     ∧ Pet.active twice.1 = true
     ∧ Pet.table twice.2 !! Pet.id self = Some twice.1)
  ∧ lifecycle_state twice.1 = lifecycle_state once.1
  ∧ twice.1 = Pet.set_modified now' once.1
  ∧ Pet.table twice.2 = <[Pet.id self := twice.1]> (Pet.table once.2)
  ∧ Pet.outbox twice.2 = Pet.outbox once.2
  ∧ Pet.entropy twice.2 = Pet.entropy once.2
  ∧ (now' = now → twice = once).
Proof.
  intros once twice. subst once twice. unfold Pet.activate, Pet.save. cbn.
  repeat split; try apply lookup_insert_eq.
  intros ->. by rewrite insert_insert_eq.
Qed.

(** C3: when [send_deactivate_email] reports failure, [deactivate]
    leaves the instance and the Pet table as they were; when it reports
    success, [deactivate] clears [active] and nothing else, keeps the
    modification timestamp, and stores the instance as the pet's row. *)
Theorem deactivate_gated now self w (ok : bool) (o : Outbox) :
  send_deactivate_email self (Pet.outbox w) = (ok, o) →
  let r := Pet.deactivate send_deactivate_email now self w in
  if ok
  then r.1 = Pet.set_active false self
       ∧ Pet.active r.1 = false
       ∧ Pet.modified r.1 = Pet.modified self
       ∧ Pet.table r.2 = <[Pet.id self := r.1]> (Pet.table w)
       ∧ Pet.table r.2 !! Pet.id self = Some r.1
  else r.1 = self ∧ Pet.table r.2 = Pet.table w.
Proof.
  intros Hsend. unfold Pet.deactivate. rewrite Hsend.
  destruct ok; cbn; repeat split. apply lookup_insert_eq.
Qed.

(** C4: [request_action] first sets [request_key] to the SHA-1 hex
    digest, 40 hexadecimal digits, of a random seed of 5 characters
    followed by the pet's name.  When [send_request_action_email] then
    reports failure, nothing is stored: the Pet table is as it was,
    [request_sent] keeps its value (unset stays unset) and the new key
    is on the instance only.  When it reports success, [request_sent]
    is set to the current time and the instance is stored as the pet's
    row, with the modification timestamp it had.  Either way the random
    source has moved on by the 5 draws of the seed, so the next request
    draws its own. *)
Theorem request_action_gated now self w (ok : bool) (o : Outbox) :
  let seed := (crypto.get_random_string 5 (Pet.entropy w)).1 in
  let key := hashlib.sha1_hexdigest (String.append seed (Pet.name self)) in
  send_request_action_email (Pet.set_request_key key self) (Pet.outbox w)
  = (ok, o) →
  let r := Pet.request_action send_request_action_email now self w in
  String.length seed = 5%nat
  ∧ String.length key = 40%nat
  ∧ Forall is_hexdigit (String.list_ascii_of_string key)
  ∧ Pet.request_key r.1 = key
  ∧ Pet.modified r.1 = Pet.modified self
  ∧ (∀ i, Pet.entropy r.2 i = Pet.entropy w (5 + i)%nat)
  ∧ if ok
    then r.1 = Pet.set_request_sent (Some now) (Pet.set_request_key key self)
         ∧ Pet.request_sent r.1 = Some now
         ∧ Pet.table r.2 = <[Pet.id self := r.1]> (Pet.table w)
         ∧ Pet.table r.2 !! Pet.id self = Some r.1
    else r.1 = Pet.set_request_key key self
         ∧ Pet.request_sent r.1 = Pet.request_sent self
         ∧ (Pet.request_sent self = None → Pet.request_sent r.1 = None)
         ∧ Pet.table r.2 = Pet.table w.
Proof.
  intros seed key Hsend r.
  split; [apply get_random_string_length|].
  split; [apply sha1_hexdigest_length|].
  split; [apply sha1_hexdigest_hex|].
  subst r. unfold Pet.request_action. subst key seed.
  pose proof (get_random_string_advances 5 (Pet.entropy w)) as Hadv.
  destruct (crypto.get_random_string 5 (Pet.entropy w)) as [seed g].
  cbn [fst snd] in *. rewrite Hsend.
  destruct ok; cbn; repeat split; try done. apply lookup_insert_eq.
Qed.
End lifecycle_facts.

(** The scenario of the specification: Missing, then Found, then
    Adopted. *)
Example change_status_scenario :
  Pet.status (calls Pet.change_status [131 * day] rex world0).1 = Pet.FOUND
  ∧ Pet.status (calls Pet.change_status [131 * day; 132 * day] rex world0).1
    = Pet.ADOPTED.
Proof. split; reflexivity. Qed.

Example activate_twice :
  (calls Pet.activate [131 * day; 131 * day] rex world0).1
  = (calls Pet.activate [131 * day] rex world0).1
  ∧ Pet.modified (calls Pet.activate [131 * day; 132 * day] rex world0).1
    = 132 * day.
Proof. split; reflexivity. Qed.

(** Both branches of [deactivate] on the sample pet. *)
Lemma deactivate_gated_witness :
  ((Pet.deactivate delivers (131 * day) rex world0).1
     = Pet.set_active false rex
   ∧ Pet.modified (Pet.deactivate delivers (131 * day) rex world0).1
     = 100 * day)
  ∧ (Pet.deactivate fails (131 * day) rex world0).1 = rex.
Proof.
  split.
  - pose proof (deactivate_gated delivers (131 * day) rex world0 true
                  ["Rex"] eq_refl) as H.
    cbv zeta iota in H. destruct H as (H1 & _ & H3 & _). split; [exact H1|].
    rewrite H3. reflexivity.
  - pose proof (deactivate_gated fails (131 * day) rex world0 false
                  [] eq_refl) as H.
    cbv zeta iota in H. exact (proj1 H).
Defined.

(** Both branches of [request_action] on the sample pet. *)
Lemma request_action_gated_witness :
  Pet.request_sent (Pet.request_action delivers (131 * day) rex world0).1
  = Some (131 * day)
  ∧ Pet.request_sent (Pet.request_action fails (131 * day) rex world0).1
    = None.
Proof.
  split.
  - pose proof (request_action_gated delivers (131 * day) rex world0 true
                  ["Rex"] eq_refl) as H.
    cbv zeta iota in H. destruct H as (_ & _ & _ & _ & _ & _ & _ & H & _).
    exact H.
  - pose proof (request_action_gated fails (131 * day) rex world0 false
                  [] eq_refl) as H.
    cbv zeta iota in H. destruct H as (_ & _ & _ & _ & _ & _ & _ & _ & H & _).
    exact (H eq_refl).
Defined.

Example request_action_key :
  Pet.request_key (Pet.request_action fails (131 * day) rex world0).1
  = hashlib.sha1_hexdigest "dkryFRex".
Proof. vm_compute. reflexivity. Qed.

(** * The Kind counter *)

Example lost_kinds_sample :
  KindManager.lost_kinds kinds0 pets0
  = [(ant, 1%nat); (cat, 1%nat); (dog, 2%nat)].
Proof. vm_compute. reflexivity. Qed.

Example adoption_kinds_sample :
  KindManager.adoption_kinds kinds0 pets0 = [(dog, 1%nat); (emu, 1%nat)].
Proof. vm_compute. reflexivity. Qed.

Section filter_facts.
Context {A B : Type}.

Lemma filter_fmap_comm (f : A → B) (P : B → Prop) `{!∀ y, Decision (P y)}
    (l : list A) :
  filter P (f <$> l) = f <$> filter (λ x, P (f x)) l.
Proof.
  induction l as [|x l IH]; [reflexivity|].
  rewrite fmap_cons, !filter_cons, IH. by destruct (decide (P (f x))).
Qed.

Lemma filter_none (P : A → Prop) `{!∀ x, Decision (P x)} (l : list A) :
  (∀ x, x ∈ l → ¬ P x) → filter P l = [].
Proof.
  induction l as [|x l IH]; intros Hno; [reflexivity|].
  rewrite filter_cons_False by (apply Hno; left).
  apply IH. intros y Hy. apply Hno. by right.
Qed.

Lemma filter_all (P : A → Prop) `{!∀ x, Decision (P x)} (l : list A) :
  (∀ x, P x) → filter P l = l.
Proof.
  intros Hall. induction l as [|x l IH]; [reflexivity|].
  rewrite filter_cons_True by apply Hall. by rewrite IH.
Qed.

Lemma filter_nonempty (P : A → Prop) `{!∀ x, Decision (P x)} (l : list A) :
  (0 < length (filter P l))%nat ↔ ∃ x, x ∈ l ∧ P x.
Proof.
  split.
  - destruct (filter P l) as [|x l'] eqn:E; simpl; [lia|]. intros _.
    assert (Hx : x ∈ filter P l) by (rewrite E; left).
    apply list_elem_of_filter in Hx. exists x. tauto.
  - intros (x & Hx & HP).
    assert (Hin : x ∈ filter P l) by (apply list_elem_of_filter; tauto).
    destruct (filter P l); [by apply elem_of_nil in Hin|simpl; lia].
Qed.
End filter_facts.

Section kind_counter.
Variable pets : list Pet.t.
Variable status : list string.
Local Abbreviation rows ks := (KindManager.filter_pet ks pets status).

Lemma rows_cons (k : Kind.t) (ks : list Kind.t) :
  rows (k :: ks)
  = ((λ p, (k, p)) <$> filter (counted status k) pets) ++ rows ks.
Proof.
  unfold KindManager.filter_pet, KindManager.join.
  rewrite bind_cons, filter_app. f_equal.
  rewrite filter_fmap_comm, list_filter_filter. f_equal.
  apply list_filter_iff. intros p. unfold counted. simpl. tauto.
Qed.

Lemma rows_group (ks : list Kind.t) (k : Kind.t) :
  NoDup ks →
  filter (λ r, r.1 = k) (rows ks)
  = if decide (k ∈ ks) then (λ p, (k, p)) <$> filter (counted status k) pets
    else [].
Proof.
  induction 1 as [|k' ks Hnotin Hnd IH]; [reflexivity|].
  rewrite rows_cons, filter_app, IH, filter_fmap_comm. simpl.
  destruct (decide (k' = k)) as [->|Hne].
  - rewrite (decide_False (P := k ∈ ks)) by exact Hnotin.
    rewrite (decide_True (P := k ∈ k :: ks)) by left.
    rewrite app_nil_r. f_equal.
    by apply filter_all.
  - rewrite (filter_none (λ _, k' = k)) by (intros ? _; exact Hne).
    simpl. destruct (decide (k ∈ ks)) as [Hin|Hnin].
    + by rewrite decide_True by (by right).
    + rewrite decide_False; [reflexivity|].
      intros [Heq|Hin]%elem_of_cons; [by subst|done].
Qed.

Lemma elem_of_rows (ks : list Kind.t) (k : Kind.t) (p : Pet.t) :
  (k, p) ∈ rows ks ↔ k ∈ ks ∧ p ∈ pets ∧ counted status k p.
Proof.
  induction ks as [|k' ks IH].
  - unfold KindManager.filter_pet, KindManager.join. simpl.
    rewrite filter_nil, !elem_of_nil. tauto.
  - rewrite rows_cons, elem_of_app, IH, list_elem_of_fmap, elem_of_cons.
    split.
    + intros [(q & [= -> ->] & [Hc Hq]%list_elem_of_filter)|?]; tauto.
    + intros ([->|Hin] & Hp & Hc); [left|right; tauto].
      exists p. split; [reflexivity|]. apply list_elem_of_filter. tauto.
Qed.

Lemma elem_of_annotate_count (ks : list Kind.t) (k : Kind.t) (n : nat) :
  NoDup ks →
  (k, n) ∈ KindManager.annotate_count (rows ks) ↔
  k ∈ ks ∧ n = length (filter (counted status k) pets) ∧ (0 < n)%nat.
Proof.
  intros Hnd. unfold KindManager.annotate_count.
  rewrite list_elem_of_fmap. setoid_rewrite elem_of_remove_dups.
  setoid_rewrite list_elem_of_fmap. split.
  - intros (k' & [= <- ->] & [k'' p] & -> & Hin). simpl in *.
    apply elem_of_rows in Hin as (Hk & Hp & Hc).
    rewrite rows_group, decide_True, length_fmap by done.
    repeat split; [done|]. apply filter_nonempty. eauto.
  - intros (Hk & -> & [p [Hp Hc]]%filter_nonempty).
    exists k. rewrite rows_group, decide_True, length_fmap by done.
    split; [reflexivity|]. exists (k, p). split; [reflexivity|].
    apply elem_of_rows. tauto.
Qed.
End kind_counter.

Lemma by_name_transitive :
  Transitive (λ a b : Kind.t * nat, String.le (Kind.kind a.1) (Kind.kind b.1)).
Proof. intros a b c Hab Hbc. by etrans. Qed.

Lemma by_name_total :
  Total (λ a b : Kind.t * nat, String.le (Kind.kind a.1) (Kind.kind b.1)).
Proof. intros a b. apply (total String.le). Qed.

Lemma order_by_kind_ordered (rows : list (Kind.t * nat)) :
  ordered_by_name (KindManager.order_by_kind rows).
Proof.
  apply StronglySorted_merge_sort;
    [apply by_name_transitive|apply by_name_total].
Qed.

Lemma elem_of_order_by_kind (rows : list (Kind.t * nat)) (r : Kind.t * nat) :
  r ∈ KindManager.order_by_kind rows ↔ r ∈ rows.
Proof.
  unfold KindManager.order_by_kind. by rewrite merge_sort_Permutation.
Qed.

Lemma annotate_count_kinds (rows : list (Kind.t * Pet.t)) :
  (KindManager.annotate_count rows).*1 = remove_dups (rows.*1).
Proof.
  unfold KindManager.annotate_count.
  rewrite <- list_fmap_compose. apply list_fmap_id.
Qed.

(** C9, as the code has it: given distinct primary keys in the Kind
    table, [count_pets] has one entry per kind that has a pet that is
    active and has a status of the set, with the number of those pets;
    a kind with none has no entry; the entries come in ascending order
    of the kind's name, the [kind] column; [lost_kinds] and
    [adoption_kinds] are [count_pets] on the two tracks. *)
Theorem count_pets_by_name (kinds : list Kind.t) (pets : list Pet.t)
    (status : list string) :
  NoDup (Kind.id <$> kinds) →
  (∀ k n, (k, n) ∈ KindManager.count_pets kinds pets status ↔
          k ∈ kinds ∧ n = length (filter (counted status k) pets)
          ∧ (0 < n)%nat)
  ∧ (∀ k, filter (counted status k) pets = [] →
          k ∉ (KindManager.count_pets kinds pets status).*1)
  ∧ NoDup (KindManager.count_pets kinds pets status).*1
  ∧ ordered_by_name (KindManager.count_pets kinds pets status)
  ∧ KindManager.lost_kinds kinds pets
    = KindManager.count_pets kinds pets [Pet.MISSING; Pet.FOUND]
  ∧ KindManager.adoption_kinds kinds pets
    = KindManager.count_pets kinds pets [Pet.FOR_ADOPTION; Pet.ADOPTED].
Proof.
  intros Hpk%NoDup_fmap_1.
  assert (Hin : ∀ k n, (k, n) ∈ KindManager.count_pets kinds pets status ↔
            k ∈ kinds ∧ n = length (filter (counted status k) pets)
            ∧ (0 < n)%nat).
  { intros k n. unfold KindManager.count_pets.
    rewrite elem_of_order_by_kind. by apply elem_of_annotate_count. }
  split; [exact Hin|]. split; [|split; [|split; [|split]]].
  - intros k Hnone [[k' n] [Hk Hkn]]%list_elem_of_fmap. simpl in Hk. subst k'.
    apply Hin in Hkn as (_ & -> & Hpos). rewrite Hnone in Hpos.
    simpl in Hpos. lia.
  - unfold KindManager.count_pets, KindManager.order_by_kind.
    rewrite merge_sort_Permutation, annotate_count_kinds.
    apply NoDup_remove_dups.
  - apply order_by_kind_ordered.
  - reflexivity.
  - reflexivity.
Qed.

Lemma count_pets_by_name_witness :
  ordered_by_name (KindManager.lost_kinds kinds0 pets0)
  ∧ (dog, 2%nat) ∈ KindManager.lost_kinds kinds0 pets0
  ∧ emu ∉ (KindManager.lost_kinds kinds0 pets0).*1.
Proof.
  assert (Hpk : NoDup (Kind.id <$> kinds0)).
  { apply (bool_decide_unpack _). vm_compute. exact I. }
  destruct (count_pets_by_name kinds0 pets0 [Pet.MISSING; Pet.FOUND] Hpk)
    as (Hin & Hnone & _ & Hsorted & _).
  split; [exact Hsorted|]. split.
  - apply Hin. split; [|split].
    + left.
    + vm_compute. reflexivity.
    + vm_compute. lia.
  - apply Hnone. vm_compute. reflexivity.
Defined.

(** The sample counts come as ant (id 3, slug zebra), cat (id 2), dog
    (id 1): ordered by name, and neither by id nor by slug. *)
Lemma count_pets_not_by_identifier :
  ¬ ordered_by_identifier
      (KindManager.count_pets kinds0 pets0 [Pet.MISSING; Pet.FOUND]).
Proof.
  change (KindManager.count_pets kinds0 pets0 [Pet.MISSING; Pet.FOUND])
    with (KindManager.lost_kinds kinds0 pets0).
  rewrite lost_kinds_sample.
  intros [H|H]; inversion H as [|? ? _ Hd]; inversion Hd as [|? ? Hle].
  - vm_compute in Hle. by apply Hle.
  - vm_compute in Hle. exact Hle.
Qed.

(** * Further properties of the query layer *)

Section filter_lengths.
Context {A : Type}.

Lemma filter_length_split (P Q R : A → Prop)
    `{!∀ x, Decision (P x), !∀ x, Decision (Q x), !∀ x, Decision (R x)}
    (l : list A) :
  (∀ x, x ∈ l → P x → Q x → False) →
  (∀ x, x ∈ l → R x ↔ P x ∨ Q x) →
  (length (filter P l) + length (filter Q l))%nat = length (filter R l).
Proof.
  induction l as [|x l IH]; intros Hdis Hcov; [reflexivity|].
  assert (IH' : (length (filter P l) + length (filter Q l))%nat
                = length (filter R l)).
  { apply IH; intros y Hy; [apply Hdis|apply Hcov]; by right. }
  pose proof (Hdis x ltac:(left)) as Hd.
  pose proof (Hcov x ltac:(left)) as Hc.
  rewrite !filter_cons.
  destruct (decide (P x)), (decide (Q x)), (decide (R x)); simpl; try lia;
    tauto.
Qed.
End filter_lengths.

Section query_layer_more.
Variable int : string → option Z.
Variable kinds : list Kind.t.
Implicit Types (qs : list Pet.t) (p : Pet.t) (kind : string)
  (now days : Z).

Lemma request_sent__lt_iff (d : datetime) p :
  PetQuerySet.request_sent__lt d p ↔
  ∃ sent, Pet.request_sent p = Some sent ∧ sent < d.
Proof.
  unfold PetQuerySet.request_sent__lt.
  destruct (Pet.request_sent p) as [t|]; split.
  - intros Hlt. by exists t.
  - by intros (sent & [= <-] & Hlt).
  - intros [].
  - by intros (sent & [=] & _).
Qed.

Lemma elem_of_get_staled_pets now days qs p :
  p ∈ PetQuerySet.get_staled_pets now days qs ↔
  p ∈ qs ∧ Pet.modified p < now - timedelta days
  ∧ Pet.request_sent p = None
  ∧ Pet.status p ∈ [Pet.MISSING; Pet.FOR_ADOPTION].
Proof.
  unfold PetQuerySet.get_staled_pets. rewrite list_elem_of_filter. tauto.
Qed.

Lemma elem_of_get_expired_pets now days qs p :
  p ∈ PetQuerySet.get_expired_pets now days qs ↔
  p ∈ qs ∧ ∃ sent, Pet.request_sent p = Some sent
                   ∧ sent < now - timedelta days.
Proof.
  unfold PetQuerySet.get_expired_pets.
  rewrite list_elem_of_filter, request_sent__lt_iff. tauto.
Qed.

(** [get_expired_pets] yields exactly the rows whose [request_sent] is
    set and before [now - days], in queryset order and whatever their
    [active] flag; a row with no [request_sent] is never expired. *)
Theorem get_expired_pets_exact now days qs p :
  (p ∈ PetQuerySet.get_expired_pets now days qs ↔
     p ∈ qs ∧ ∃ sent, Pet.request_sent p = Some sent
                      ∧ sent < now - timedelta days)
  ∧ (Pet.request_sent p = None →
     p ∉ PetQuerySet.get_expired_pets now days qs)
  ∧ (p ∈ PetQuerySet.get_expired_pets now days qs →
     ∀ b, Pet.set_active b p
          ∈ PetQuerySet.get_expired_pets now days (Pet.set_active b <$> qs))
  ∧ sublist (PetQuerySet.get_expired_pets now days qs) qs.
Proof.
  split; [apply elem_of_get_expired_pets|]. split; [|split].
  - intros Hnone (_ & sent & Hsome & _)%elem_of_get_expired_pets. congruence.
  - intros (Hin & sent & Hsome & Hlt)%elem_of_get_expired_pets b.
    apply elem_of_get_expired_pets. split.
    + by apply list_elem_of_fmap_2.
    + exists sent. split; [exact Hsome|exact Hlt].
  - apply sublist_filter.
Qed.

(** No pet is stale and expired: a stale pet has no [request_sent], an
    expired one has; whatever the two clocks, thresholds and querysets. *)
Theorem staled_expired_disjoint now days now' days' qs qs' p :
  p ∈ PetQuerySet.get_staled_pets now days qs →
  p ∉ PetQuerySet.get_expired_pets now' days' qs'.
Proof.
  intros (_ & _ & Hnone & _)%elem_of_get_staled_pets
         (_ & sent & Hsome & _)%elem_of_get_expired_pets.
  congruence.
Qed.

(** The two tracks cover the four status codes: every row of
    [_filter_by_kind] with one of the four codes is in exactly one of
    [get_lost_or_found] and [get_for_adoption_adopted], a row with any
    other status value is in neither, and both results keep the order
    of the queryset. *)
Theorem tracks_cover qs kind :
  (length (PetQuerySet.get_lost_or_found int kinds qs kind)
   + length (PetQuerySet.get_for_adoption_adopted int kinds qs kind))%nat
  = length (filter (λ p, Pet.status p ∈ status_codes)
                   (PetQuerySet._filter_by_kind int kinds qs kind))
  ∧ (∀ p, Pet.status p ∉ status_codes →
          (p ∉ PetQuerySet.get_lost_or_found int kinds qs kind)
          ∧ (p ∉ PetQuerySet.get_for_adoption_adopted int kinds qs kind))
  ∧ sublist (PetQuerySet.get_lost_or_found int kinds qs kind) qs
  ∧ sublist (PetQuerySet.get_for_adoption_adopted int kinds qs kind) qs.
Proof.
  assert (Hsub : sublist (PetQuerySet._filter_by_kind int kinds qs kind) qs).
  { unfold PetQuerySet._filter_by_kind, PetQuerySet.actives.
    destruct (int kind).
    - etrans; [apply sublist_filter|apply sublist_filter].
    - etrans; [apply sublist_filter|apply sublist_filter]. }
  unfold PetQuerySet.get_lost_or_found, PetQuerySet.get_for_adoption_adopted.
  split; [|split; [|split]].
  - apply filter_length_split.
    + intros p _. apply track_statuses_disjoint.
    + intros p _. unfold status_codes. rewrite !elem_of_cons, !elem_of_nil.
      tauto.
  - intros p Hno. split; intros [Hst _]%list_elem_of_filter; apply Hno;
      revert Hst; unfold status_codes; rewrite !elem_of_cons, !elem_of_nil;
      tauto.
  - etrans; [apply sublist_filter|exact Hsub].
  - etrans; [apply sublist_filter|exact Hsub].
Qed.

(** A pet with no kind is returned for no identifier, and a slug that
    no kind has returns nothing. *)
Theorem filter_by_kind_no_match qs kind :
  (∀ p, Pet.kind p = None →
        p ∉ PetQuerySet._filter_by_kind int kinds qs kind)
  ∧ (int kind = None → (∀ k, k ∈ kinds → Kind.slug k ≠ kind) →
     PetQuerySet._filter_by_kind int kinds qs kind = [])
  ∧ PetQuerySet._filter_by_kind int kinds [] kind = [].
Proof.
  split; [|split].
  - intros p Hnone (_ & _ & Hm)%elem_of_filter_by_kind.
    destruct (int kind); [congruence|].
    destruct Hm as (k & _ & Hk & _). congruence.
  - intros Hint Hno. unfold PetQuerySet._filter_by_kind. rewrite Hint.
    apply filter_none. intros p _ (k & Hk & _ & Hslug)%(kind__slug_iff int).
    exact (Hno k Hk Hslug).
  - unfold PetQuerySet._filter_by_kind. by destruct (int kind).
Qed.
End query_layer_more.

Lemma staled_expired_disjoint_witness :
  rex ∉ PetQuerySet.get_expired_pets (500 * day) 30 [rex].
Proof.
  apply (staled_expired_disjoint (131 * day) 30 (500 * day) 30 [rex] [rex]).
  vm_compute. left.
Defined.

(** * Further properties of the lifecycle methods *)

Section lifecycle_more.
Context {Outbox : Type}.
Variable send_request_action_email : Pet.t → Outbox → bool * Outbox.
Variable send_deactivate_email : Pet.t → Outbox → bool * Outbox.
Variable gettext : string → string.
Implicit Types (self : Pet.t) (w : Pet.World Outbox) (now : datetime)
  (qs : list Pet.t).

Lemma request_action_instance now self w :
  ∃ key,
    (Pet.request_action send_request_action_email now self w).1
    = Pet.set_request_key key self
    ∧ Pet.table (Pet.request_action send_request_action_email now self w).2
      = Pet.table w
    ∨ (Pet.request_action send_request_action_email now self w).1
      = Pet.set_request_sent (Some now) (Pet.set_request_key key self)
    ∧ Pet.table (Pet.request_action send_request_action_email now self w).2
      = <[Pet.id self :=
            Pet.set_request_sent (Some now) (Pet.set_request_key key self)]>
          (Pet.table w).
Proof.
  unfold Pet.request_action.
  destruct (crypto.get_random_string 5 (Pet.entropy w)) as [seed g].
  eexists. destruct (send_request_action_email _ _) as [[] o]; cbn.
  - right. split; reflexivity.
  - left. split; reflexivity.
Qed.

Lemma deactivate_instance now self w :
  (Pet.deactivate send_deactivate_email now self w).1 = self
  ∧ Pet.table (Pet.deactivate send_deactivate_email now self w).2
    = Pet.table w
  ∨ (Pet.deactivate send_deactivate_email now self w).1
    = Pet.set_active false self
  ∧ Pet.table (Pet.deactivate send_deactivate_email now self w).2
    = <[Pet.id self := Pet.set_active false self]> (Pet.table w).
Proof.
  unfold Pet.deactivate.
  destruct (send_deactivate_email _ _) as [[] o]; cbn.
  - right. split; reflexivity.
  - left. split; reflexivity.
Qed.

Lemma lifecycle_frame_step now self w (i : Z) :
  i ≠ Pet.id self →
  let r1 := Pet.change_status now self w in
  let r2 := Pet.request_action send_request_action_email now self w in
  let r3 := Pet.activate now self w in
  let r4 := Pet.deactivate send_deactivate_email now self w in
  (fixed_fields r1.1 = fixed_fields self
   ∧ Pet.table r1.2 !! i = Pet.table w !! i)
  ∧ (fixed_fields r2.1 = fixed_fields self
     ∧ Pet.table r2.2 !! i = Pet.table w !! i)
  ∧ (fixed_fields r3.1 = fixed_fields self
     ∧ Pet.table r3.2 !! i = Pet.table w !! i)
  ∧ (fixed_fields r4.1 = fixed_fields self
     ∧ Pet.table r4.2 !! i = Pet.table w !! i).
Proof.
  intros Hi r1 r2 r3 r4. subst r1 r2 r3 r4. split; [|split; [|split]].
  - split; [reflexivity|]. cbn. by apply lookup_insert_ne.
  - destruct (request_action_instance now self w)
      as (key & [[-> ->]|[-> ->]]); (split; [reflexivity|]);
      [reflexivity|by apply lookup_insert_ne].
  - split; [reflexivity|]. cbn. by apply lookup_insert_ne.
  - destruct (deactivate_instance now self w) as [[-> ->]|[-> ->]];
      (split; [reflexivity|]); [reflexivity|by apply lookup_insert_ne].
Qed.

(** After [change_status] both [found_or_adopted] and
    [is_found_or_adopted] hold, and [get_status] is the label of Found
    or of Adopted, whatever the status was, even a value outside
    [PET_STATUS]. *)
Theorem change_status_found_or_adopted now self w :
  let r := Pet.change_status now self w in
  Pet.found_or_adopted r.1 = true
  ∧ Pet.is_found_or_adopted r.1 = true
  ∧ (Pet.get_status gettext r.1 = Some (gettext "Found")
     ∨ Pet.get_status gettext r.1 = Some (gettext "Adopted")).
Proof.
  intros r. subst r.
  unfold Pet.found_or_adopted, Pet.is_found_or_adopted, Pet.get_status.
  rewrite !change_status_status.
  destruct (bool_decide (Pet.status self = Pet.MISSING));
    (split; [reflexivity|]); (split; [reflexivity|]).
  - left. reflexivity.
  - right. reflexivity.
Qed.

(** [activate] undoes a request and a deactivation: after
    [request_action] and [deactivate], in this order and whatever the
    two senders report, [activate] leaves an instance that agrees, on
    every field but the modification time, with the one it would leave
    when called on the pet directly: the pet's own data with
    [request_sent] unset, [request_key] empty and [active] set.  The
    instance is stored as the pet's row and no other row changes. *)
Theorem activate_resets (t1 t2 t3 : datetime) self w :
  let r1 := Pet.request_action send_request_action_email t1 self w in
  let r2 := Pet.deactivate send_deactivate_email t2 r1.1 r1.2 in
  let r3 := Pet.activate t3 r2.1 r2.2 in
  (∀ t, Pet.set_modified t r3.1
        = Pet.set_modified t (Pet.activate t3 self w).1)
  ∧ (Pet.request_sent r3.1 = None ∧ Pet.request_key r3.1 = EmptyString
     ∧ Pet.active r3.1 = true ∧ Pet.status r3.1 = Pet.status self
     ∧ fixed_fields r3.1 = fixed_fields self)
  ∧ Pet.table r3.2 !! Pet.id self = Some r3.1
  ∧ (∀ i, i ≠ Pet.id self → Pet.table r3.2 !! i = Pet.table w !! i).
Proof.
  intros r1 r2 r3. subst r3 r2.
  destruct (deactivate_instance t2 r1.1 r1.2) as [[E2 T2]|[E2 T2]];
    subst r1;
    destruct (request_action_instance t1 self w)
      as (key & [[E1 T1]|[E1 T1]]);
    unfold Pet.activate, Pet.save; cbn; rewrite E2, T2, ?E1, ?T1; cbn;
    (split; [reflexivity|]); (split; [repeat split|]);
    (split; [apply lookup_insert_eq|]);
    intros i Hi; rewrite ?lookup_insert_ne by done; reflexivity.
Qed.

(** A successful [request_action] takes the pet out of the stale pets,
    for every clock and threshold, and makes it expired exactly once the
    request is older than the threshold; a failed one leaves it as stale
    as it was, so that the next run asks again. *)
Theorem request_action_staleness now self w (ok : bool) (o : Outbox)
    (now' days : Z) qs :
  let seed := (crypto.get_random_string 5 (Pet.entropy w)).1 in
  let key := hashlib.sha1_hexdigest (String.append seed (Pet.name self)) in
  send_request_action_email (Pet.set_request_key key self) (Pet.outbox w)
  = (ok, o) →
  let r := Pet.request_action send_request_action_email now self w in
  if ok
  then (r.1 ∉ PetQuerySet.get_staled_pets now' days qs)
       ∧ (r.1 ∈ PetQuerySet.get_expired_pets now' days qs ↔
            r.1 ∈ qs ∧ now < now' - timedelta days)
  else r.1 ∈ PetQuerySet.get_staled_pets now' days (r.1 :: qs) ↔
       self ∈ PetQuerySet.get_staled_pets now' days (self :: qs).
Proof.
  intros seed key Hsend r. subst r. unfold Pet.request_action.
  subst key seed.
  destruct (crypto.get_random_string 5 (Pet.entropy w)) as [seed g].
  cbn [fst] in *. rewrite Hsend.
  destruct ok; cbn -[PetQuerySet.get_staled_pets PetQuerySet.get_expired_pets].
  - rewrite elem_of_get_staled_pets, elem_of_get_expired_pets. cbn. split.
    + intros (_ & _ & [=] & _).
    + split.
      * intros (Hin & sent & [= <-] & Hlt). by split.
      * intros [Hin Hlt]. split; [exact Hin|]. by exists now.
  - rewrite !elem_of_get_staled_pets. cbn.
    split; intros (_ & H); (split; [left|exact H]).
Qed.

(** After [activate] the pet is not expired, for any clock and
    threshold, and it is not stale until the threshold has passed since
    the call, which set the modification time. *)
Theorem activate_fresh now self w (now' days : Z) qs :
  now' - timedelta days ≤ now →
  let r := Pet.activate now self w in
  (r.1 ∉ PetQuerySet.get_staled_pets now' days qs)
  ∧ (∀ now'' days', r.1 ∉ PetQuerySet.get_expired_pets now'' days' qs)
  ∧ r.1 ∈ PetQuerySet.actives (r.1 :: qs).
Proof.
  intros Hle r. subst r. split; [|split].
  - intros (_ & Hlt & _)%elem_of_get_staled_pets. cbn in Hlt. lia.
  - intros now'' days' (_ & sent & [=] & _)%elem_of_get_expired_pets.
  - apply elem_of_actives. split; [left|reflexivity].
Qed.

(** A successful [deactivate] takes the pet out of [actives] and of the
    queries by kind, for every identifier, but not out of the expired
    pets nor of the unpublished ones: it is as expired and as
    unpublished as before. *)
Theorem deactivate_hides now self w (o : Outbox)
    (int : string → option Z) (kinds : list Kind.t) (kind : string)
    (now' days : Z) qs :
  send_deactivate_email self (Pet.outbox w) = (true, o) →
  let r := Pet.deactivate send_deactivate_email now self w in
  (r.1 ∉ PetQuerySet.actives qs)
  ∧ (r.1 ∉ PetQuerySet._filter_by_kind int kinds qs kind)
  ∧ (r.1 ∉ PetQuerySet.get_lost_or_found int kinds qs kind)
  ∧ (r.1 ∉ PetQuerySet.get_for_adoption_adopted int kinds qs kind)
  ∧ (r.1 ∈ PetQuerySet.get_expired_pets now' days (r.1 :: qs) ↔
       self ∈ PetQuerySet.get_expired_pets now' days (self :: qs))
  ∧ (r.1 ∈ PetQuerySet.get_unpublished_pets (r.1 :: qs) ↔
       self ∈ PetQuerySet.get_unpublished_pets (self :: qs)).
Proof.
  clear send_request_action_email gettext.
  intros Hsend r. subst r. unfold Pet.deactivate. rewrite Hsend.
  cbn -[PetQuerySet.actives PetQuerySet._filter_by_kind
        PetQuerySet.get_lost_or_found PetQuerySet.get_for_adoption_adopted
        PetQuerySet.get_expired_pets PetQuerySet.get_unpublished_pets].
  assert (Hact : Pet.set_active false self ∉ PetQuerySet.actives qs).
  { intros [_ Ht]%elem_of_actives. discriminate Ht. }
  assert (Hkind : Pet.set_active false self
                  ∉ PetQuerySet._filter_by_kind int kinds qs kind).
  { intros (_ & Ht & _)%elem_of_filter_by_kind. discriminate Ht. }
  split; [exact Hact|]. split; [exact Hkind|].
  unfold PetQuerySet.get_lost_or_found, PetQuerySet.get_for_adoption_adopted,
    PetQuerySet.get_unpublished_pets.
  rewrite !list_elem_of_filter, !elem_of_get_expired_pets. cbn.
  assert (Hs : self ∈ self :: qs) by left.
  assert (Hs' : Pet.set_active false self ∈ Pet.set_active false self :: qs)
    by left.
  tauto.
Qed.
End lifecycle_more.

Lemma request_action_staleness_witness :
  (Pet.request_action delivers (131 * day) rex world0).1
  ∉ PetQuerySet.get_staled_pets (200 * day) 30 [rex].
Proof.
  pose proof (request_action_staleness delivers (131 * day) rex world0 true
                ["Rex"] (200 * day) 30 [rex] eq_refl) as H.
  cbv zeta iota in H. exact (proj1 H).
Defined.

Lemma activate_fresh_witness :
  (Pet.activate (131 * day) tom world1).1
  ∉ PetQuerySet.get_staled_pets (150 * day) 30 [tom].
Proof.
  assert (Hle : 150 * day - timedelta 30 ≤ 131 * day) by (vm_compute; discriminate).
  exact (proj1 (activate_fresh (131 * day) tom world1 (150 * day) 30 [tom]
                  Hle)).
Defined.

Lemma deactivate_hides_witness :
  (Pet.deactivate delivers (200 * day) tom world1).1
  ∈ PetQuerySet.get_expired_pets (200 * day) 30
      [(Pet.deactivate delivers (200 * day) tom world1).1].
Proof.
  pose proof (deactivate_hides delivers (200 * day) tom world1 ["Tom"]
                builtins.int kinds0 "cat" (200 * day) 30 [] eq_refl) as H.
  cbv zeta in H. destruct H as (_ & _ & _ & _ & [_ H] & _).
  apply H. vm_compute. left.
Defined.

(** * Further properties of the Kind counter *)

Section group_sizes.
Context {A K : Type} `{!EqDecision K}.

Lemma sum_list_with_fmap {B : Type} (g : A → B) (h : B → nat) (l : list A) :
  sum_list_with h (g <$> l) = sum_list_with (λ x, h (g x)) l.
Proof. induction l as [|x l IH]; [reflexivity|]. csimpl. by rewrite IH. Qed.

Lemma sum_list_with_plus (a b : K → nat) (l : list K) :
  sum_list_with (λ k, a k + b k)%nat l
  = (sum_list_with a l + sum_list_with b l)%nat.
Proof. induction l as [|k l IH]; [reflexivity|]. simpl. rewrite IH. lia. Qed.

Lemma sum_list_with_ext (a b : K → nat) (l : list K) :
  (∀ k, k ∈ l → a k = b k) → sum_list_with a l = sum_list_with b l.
Proof.
  induction l as [|k l IH]; intros Hext; [reflexivity|]. simpl.
  rewrite (Hext k) by left. rewrite IH; [reflexivity|].
  intros k' Hk'. apply Hext. by right.
Qed.

(** One key of a duplicate-free list is met once. *)
Lemma sum_indicator (c : K) (l : list K) :
  NoDup l →
  sum_list_with (λ k, if decide (c = k) then 1 else 0)%nat l
  = (if decide (c ∈ l) then 1 else 0)%nat.
Proof.
  induction 1 as [|k l Hnotin Hnd IH]; [reflexivity|]. simpl. rewrite IH.
  destruct (decide (c = k)) as [->|Hne].
  - rewrite (decide_False (P := k ∈ l)) by exact Hnotin.
    by rewrite decide_True by left.
  - destruct (decide (c ∈ l)) as [Hin|Hnin].
    + by rewrite decide_True by (by right).
    + rewrite decide_False; [reflexivity|].
      intros [?|?]%elem_of_cons; done.
Qed.

(** The groups of a list by key partition it. *)
Lemma group_sizes (f : A → K) (l : list A) :
  sum_list_with (λ k, length (filter (λ x, f x = k) l))
                (remove_dups (f <$> l))
  = length l.
Proof.
  induction l as [|x l IH]; [reflexivity|].
  assert (Hstep : ∀ k, length (filter (λ y, f y = k) (x :: l))
            = ((if decide (f x = k) then 1 else 0)
               + length (filter (λ y, f y = k) l))%nat).
  { intros k. rewrite filter_cons. by destruct (decide (f x = k)). }
  rewrite (sum_list_with_ext _ _ _ (λ k _, Hstep k)), sum_list_with_plus.
  rewrite sum_indicator by apply NoDup_remove_dups.
  rewrite fmap_cons. cbn [remove_dups length].
  destruct (decide_rel elem_of (f x) (f <$> l)) as [Hin|Hnin].
  - rewrite decide_True by (by apply elem_of_remove_dups).
    rewrite IH. reflexivity.
  - rewrite decide_True by left. simpl.
    rewrite (filter_none (λ y, f y = f x)).
    + rewrite IH. simpl. lia.
    + intros y Hy Heq. apply Hnin. rewrite <- Heq.
      by apply list_elem_of_fmap_2.
Qed.
End group_sizes.

Section kind_counter_more.
Variable pets : list Pet.t.
Variable status : list string.

Lemma filter_pet_nil : KindManager.filter_pet [] pets status = [].
Proof. reflexivity. Qed.

Lemma count_pets_of_no_rows (kinds : list Kind.t) (ps : list Pet.t)
    (st : list string) :
  KindManager.filter_pet kinds ps st = [] →
  KindManager.count_pets kinds ps st = [].
Proof. unfold KindManager.count_pets. by intros ->. Qed.

(** Rows come only from pets that are counted for some kind. *)
Lemma filter_pet_restrict (Q : Pet.t → Prop) `{!∀ p, Decision (Q p)}
    (ks : list Kind.t) :
  (∀ k p, counted status k p → Q p) →
  KindManager.filter_pet ks (filter Q pets) status
  = KindManager.filter_pet ks pets status.
Proof.
  intros HQ. induction ks as [|k ks IH]; [reflexivity|].
  rewrite !rows_cons, IH. f_equal. f_equal.
  rewrite list_filter_filter. apply list_filter_iff.
  intros p. split; [tauto|]. intros Hc. split; [exact Hc|]. by eapply HQ.
Qed.

Lemma filter_pet_length (ks : list Kind.t) :
  NoDup (Kind.id <$> ks) →
  length (KindManager.filter_pet ks pets status)
  = length (filter (λ p, Pet.status p ∈ status ∧ Pet.active p = true
                         ∧ has_kind ks p) pets).
Proof.
  induction ks as [|k ks IH]; intros Hnd.
  - rewrite filter_pet_nil. symmetry. simpl.
    rewrite (filter_none _ pets); [reflexivity|].
    intros p _ (_ & _ & Hk). by apply Exists_nil in Hk.
  - rewrite fmap_cons in Hnd. apply NoDup_cons in Hnd as [Hnotin Hnd].
    rewrite rows_cons, length_app, length_fmap, IH by exact Hnd.
    apply filter_length_split.
    + intros p _ (Hfk & _) (_ & _ & Hex). apply Hnotin.
      apply Exists_exists in Hex as (k' & Hk' & Hfk').
      apply list_elem_of_fmap. exists k'. split; [congruence|exact Hk'].
    + intros p _. unfold counted, has_kind. rewrite Exists_cons. tauto.
Qed.

(** The counts add up to the number of pets that are active, have a
    status of the set and a kind of the table: each such pet is counted
    once, the others never. *)
Theorem count_pets_total (kinds : list Kind.t) :
  NoDup (Kind.id <$> kinds) →
  sum_list_with snd (KindManager.count_pets kinds pets status)
  = length (filter (λ p, Pet.status p ∈ status ∧ Pet.active p = true
                         ∧ has_kind kinds p) pets).
Proof.
  intros Hnd. rewrite <- filter_pet_length by exact Hnd.
  unfold KindManager.count_pets, KindManager.order_by_kind.
  rewrite merge_sort_Permutation. unfold KindManager.annotate_count.
  rewrite sum_list_with_fmap. apply (group_sizes fst).
Qed.

(** Inactive pets and pets without a kind change no count: the counts
    over all pets are the counts over the active ones, and over the pets
    that have a kind. *)
Theorem count_pets_ignores (kinds : list Kind.t) :
  KindManager.count_pets kinds (PetQuerySet.actives pets) status
  = KindManager.count_pets kinds pets status
  ∧ KindManager.count_pets kinds
      (filter (λ p, is_Some (Pet.kind p)) pets) status
    = KindManager.count_pets kinds pets status.
Proof.
  unfold KindManager.count_pets, PetQuerySet.actives.
  split; rewrite filter_pet_restrict; try reflexivity.
  - intros k p (_ & _ & Hact). exact Hact.
  - intros k p (Hfk & _). rewrite Hfk. by eexists.
Qed.

(** Nothing to count gives no entry: an empty status set, an empty Pet
    table and an empty Kind table each give the empty result. *)
Theorem count_pets_empty (kinds : list Kind.t) :
  KindManager.count_pets kinds pets [] = []
  ∧ KindManager.count_pets kinds [] status = []
  ∧ KindManager.count_pets [] pets status = [].
Proof.
  split; [|split]; apply count_pets_of_no_rows.
  - unfold KindManager.filter_pet. apply filter_none.
    intros r _ [Hin _]. by apply elem_of_nil in Hin.
  - induction kinds as [|k ks IH]; [reflexivity|].
    rewrite rows_cons, IH. reflexivity.
  - reflexivity.
Qed.
End kind_counter_more.

Lemma count_pets_total_witness :
  sum_list_with snd (KindManager.lost_kinds kinds0 pets0) = 4%nat.
Proof.
  assert (Hpk : NoDup (Kind.id <$> kinds0)).
  { apply (bool_decide_unpack _). vm_compute. exact I. }
  unfold KindManager.lost_kinds.
  rewrite (count_pets_total pets0 [Pet.MISSING; Pet.FOUND] kinds0 Hpk).
  vm_compute. reflexivity.
Defined.

(** * The choice labels *)

Section labels.
Variable gettext : string → string.

Lemma get_status_cases (self : Pet.t) :
  Pet.get_status gettext self
  = if decide (Pet.FOUND = Pet.status self) then Some (gettext "Found")
    else if decide (Pet.ADOPTED = Pet.status self)
         then Some (gettext "Adopted")
    else if decide (Pet.FOR_ADOPTION = Pet.status self)
         then Some (gettext "For Adoption")
    else if decide (Pet.MISSING = Pet.status self)
         then Some (gettext "Missing")
    else None.
Proof.
  unfold Pet.get_status, Pet.PET_STATUS, dict. cbn [foldl fst snd].
  by rewrite !lookup_insert, lookup_empty.
Qed.

(** [get_status] is the label of the pet's status code and [None] for
    every value outside the four codes; [get_size] and [get_sex] are
    [None] for a blank field. *)
Theorem choice_labels (self : Pet.t) :
  (Pet.get_status gettext self = None ↔ Pet.status self ∉ status_codes)
  ∧ (Pet.status self = Pet.MISSING →
     Pet.get_status gettext self = Some (gettext "Missing"))
  ∧ (Pet.status self = Pet.FOR_ADOPTION →
     Pet.get_status gettext self = Some (gettext "For Adoption"))
  ∧ (Pet.status self = Pet.ADOPTED →
     Pet.get_status gettext self = Some (gettext "Adopted"))
  ∧ (Pet.status self = Pet.FOUND →
     Pet.get_status gettext self = Some (gettext "Found"))
  ∧ (Pet.size self = EmptyString → Pet.get_size gettext self = None)
  ∧ (Pet.sex self = EmptyString → Pet.get_sex gettext self = None).
Proof.
  split; [|repeat split].
  - rewrite get_status_cases. unfold status_codes.
    rewrite !elem_of_cons, elem_of_nil.
    repeat case_decide; split; try done;
      first [ intros _ [?|[?|[?|[?|[]]]]]; congruence
            | intros Hno; exfalso; apply Hno; intuition congruence ].
  - intros H. rewrite get_status_cases, H. reflexivity.
  - intros H. rewrite get_status_cases, H. reflexivity.
  - intros H. rewrite get_status_cases, H. reflexivity.
  - intros H. rewrite get_status_cases, H. reflexivity.
  - intros H. unfold Pet.get_size. rewrite H. reflexivity.
  - intros H. unfold Pet.get_sex. rewrite H. reflexivity.
Qed.
End labels.

(** * The counts and the listings *)

Lemma elem_of_count_pets (kinds : list Kind.t) (pets : list Pet.t)
    (status : list string) (k : Kind.t) (n : nat) :
  NoDup (Kind.id <$> kinds) →
  (k, n) ∈ KindManager.count_pets kinds pets status →
  k ∈ kinds ∧ n = length (filter (counted status k) pets).
Proof.
  intros Hpk%NoDup_fmap_1. unfold KindManager.count_pets.
  rewrite elem_of_order_by_kind, elem_of_annotate_count by exact Hpk. tauto.
Qed.

Section counts_and_listings.
Variable int : string → option Z.
Variable kinds : list Kind.t.
Variable pets : list Pet.t.

Lemma filter_by_kind_selects (status : list string) (kind : string)
    (k : Kind.t) :
  k ∈ kinds → selects int kinds kind k →
  filter (λ p, Pet.status p ∈ status)
         (PetQuerySet._filter_by_kind int kinds pets kind)
  = filter (counted status k) pets.
Proof.
  intros Hk Hsel. unfold PetQuerySet._filter_by_kind, PetQuerySet.actives,
    selects in *.
  destruct (int kind) as [n|]; rewrite !list_filter_filter;
    apply list_filter_iff; intros p; unfold counted.
  - subst n. tauto.
  - destruct Hsel as [Hslug Huniq]. rewrite (kind__slug_iff int). split.
    + intros ((Hst & k' & Hk' & Hfk & Hs) & Hact).
      rewrite Hfk, (Huniq k' Hk' Hs). tauto.
    + intros (Hfk & Hst & Hact). split; [|exact Hact]. split; [exact Hst|].
      exists k. tauto.
Qed.

(** The count of a kind is the length of its listing: for an identifier
    that selects the kind, the number [lost_kinds] gives is the number
    of pets [get_lost_or_found] yields, and likewise for
    [adoption_kinds] and [get_for_adoption_adopted]. *)
Theorem counts_match_listings (kind : string) (k : Kind.t) (n : nat) :
  NoDup (Kind.id <$> kinds) →
  selects int kinds kind k →
  ((k, n) ∈ KindManager.lost_kinds kinds pets →
   n = length (PetQuerySet.get_lost_or_found int kinds pets kind))
  ∧ ((k, n) ∈ KindManager.adoption_kinds kinds pets →
     n = length (PetQuerySet.get_for_adoption_adopted int kinds pets kind)).
Proof.
  intros Hpk Hsel.
  unfold KindManager.lost_kinds, KindManager.adoption_kinds,
    PetQuerySet.get_lost_or_found, PetQuerySet.get_for_adoption_adopted.
  split; intros Hin;
    apply (elem_of_count_pets _ _ _ _ _ Hpk) in Hin as [Hk ->];
    by rewrite (filter_by_kind_selects _ kind k Hk Hsel).
Qed.
End counts_and_listings.

Lemma counts_match_listings_witness :
  length (PetQuerySet.get_lost_or_found builtins.int kinds0 pets0 "1")
  = 2%nat
  ∧ length (PetQuerySet.get_lost_or_found builtins.int kinds0 pets0 "dog")
    = 2%nat.
Proof.
  assert (Hpk : NoDup (Kind.id <$> kinds0)).
  { apply (bool_decide_unpack _). vm_compute. exact I. }
  assert (Hin : (dog, 2%nat) ∈ KindManager.lost_kinds kinds0 pets0).
  { rewrite lost_kinds_sample. set_solver. }
  split; symmetry.
  - refine (proj1 (counts_match_listings builtins.int kinds0 pets0 "1" dog
                     2%nat Hpk _) Hin).
    reflexivity.
  - refine (proj1 (counts_match_listings builtins.int kinds0 pets0 "dog" dog
                     2%nat Hpk _) Hin).
    split; [reflexivity|]. intros k' Hk' Hs.
    repeat (apply elem_of_cons in Hk' as [->|Hk']; [by try discriminate Hs|]).
    by apply elem_of_nil in Hk'.
Defined.

(** * The lifecycle and the tracks, the request key *)

Section lifecycle_tracks.
Context {Outbox : Type}.
Variable send_request_action_email : Pet.t → Outbox → bool * Outbox.
Variable send_deactivate_email : Pet.t → Outbox → bool * Outbox.
Implicit Types (self : Pet.t) (w : Pet.World Outbox) (now : datetime)
  (qs : list Pet.t).

(** [change_status] leaves a pet in the lost-and-found listing only
    when it was Missing; from any other status, Found included, the pet
    lands in the adoption listing. *)
Theorem change_status_track now self w (int : string → option Z)
    (kinds : list Kind.t) (kind : string) qs :
  let r := Pet.change_status now self w in
  (r.1 ∈ PetQuerySet.get_lost_or_found int kinds qs kind ↔
     Pet.status self = Pet.MISSING
     ∧ r.1 ∈ PetQuerySet._filter_by_kind int kinds qs kind)
  ∧ (r.1 ∈ PetQuerySet.get_for_adoption_adopted int kinds qs kind ↔
       Pet.status self ≠ Pet.MISSING
       ∧ r.1 ∈ PetQuerySet._filter_by_kind int kinds qs kind).
Proof.
  intros r.
  unfold PetQuerySet.get_lost_or_found, PetQuerySet.get_for_adoption_adopted.
  rewrite !list_elem_of_filter. subst r. rewrite change_status_status.
  rewrite !elem_of_cons, !elem_of_nil.
  unfold Pet.MISSING, Pet.FOUND, Pet.FOR_ADOPTION, Pet.ADOPTED.
  case_bool_decide; split; split; intros [Hst Hin]; split;
    first [ done | exact Hin | by left | by right; left
          | by destruct Hst as [|[|[]]] ].
Qed.

Lemma sha1_hexdigest_nonempty (data : string) :
  hashlib.sha1_hexdigest data ≠ EmptyString.
Proof.
  intros Heq. pose proof (sha1_hexdigest_length data) as Hlen.
  rewrite Heq in Hlen. discriminate Hlen.
Qed.

Lemma key_invariant_digest (data : string) (sent : option datetime) self :
  key_invariant
    (Pet.set_request_sent sent
       (Pet.set_request_key (hashlib.sha1_hexdigest data) self)).
Proof.
  split; cbn.
  - right. split; [apply sha1_hexdigest_length|apply sha1_hexdigest_hex].
  - intros _. apply sha1_hexdigest_nonempty.
Qed.

Lemma key_invariant_step now self w :
  key_invariant self →
  key_invariant (Pet.change_status now self w).1
  ∧ key_invariant
      (Pet.request_action send_request_action_email now self w).1
  ∧ key_invariant (Pet.activate now self w).1
  ∧ key_invariant (Pet.deactivate send_deactivate_email now self w).1.
Proof.
  intros Hinv. split; [exact Hinv|]. split; [|split].
  - unfold Pet.request_action.
    destruct (crypto.get_random_string 5 (Pet.entropy w)) as [seed g].
    destruct (send_request_action_email _ _) as [[] o]; cbn [negb fst].
    + apply (key_invariant_digest _ (Some now)).
    + destruct Hinv as [_ Hsent]. split; cbn.
      * right.
        split; [apply sha1_hexdigest_length|apply sha1_hexdigest_hex].
      * intros _. apply sha1_hexdigest_nonempty.
  - split; cbn; [by left|]. by intros [? [=]].
  - destruct (deactivate_instance send_deactivate_email now self w)
      as [[-> _]|[-> _]]; exact Hinv.
Qed.
End lifecycle_tracks.

(** * Runs of lifecycle calls *)

Section lifecycle_runs.
Context {Outbox : Type}.
Variable send_request_action_email : Pet.t → Outbox → bool * Outbox.
Variable send_deactivate_email : Pet.t → Outbox → bool * Outbox.
Implicit Types (self : Pet.t) (w : Pet.World Outbox) (now : datetime)
  (m : method) (ops : list (method * datetime)).

Local Abbreviation call' :=
  (call send_request_action_email send_deactivate_email).
Local Abbreviation run' :=
  (run send_request_action_email send_deactivate_email).

Lemma run_cons m now ops self w :
  run' ((m, now) :: ops) self w
  = run' ops (call' m now self w).1 (call' m now self w).2.
Proof. simpl. by destruct (call _ _ m now self w). Qed.

Lemma call_frame m now self w (i : Z) :
  i ≠ Pet.id self →
  fixed_fields (call' m now self w).1 = fixed_fields self
  ∧ Pet.table (call' m now self w).2 !! i = Pet.table w !! i.
Proof.
  intros Hi.
  destruct (lifecycle_frame_step send_request_action_email
              send_deactivate_email now self w i Hi) as (H1 & H2 & H3 & H4).
  by destruct m.
Qed.

Lemma call_key_invariant m now self w :
  key_invariant self → key_invariant (call' m now self w).1.
Proof.
  intros Hinv.
  destruct (key_invariant_step send_request_action_email
              send_deactivate_email now self w Hinv) as (H1 & H2 & H3 & H4).
  by destruct m.
Qed.

Lemma call_status m now self w :
  Pet.status (call' m now self w).1
  = match m with
    | ChangeStatus =>
        if bool_decide (Pet.status self = Pet.MISSING) then Pet.FOUND
        else Pet.ADOPTED
    | _ => Pet.status self
    end.
Proof.
  destruct m; simpl; try reflexivity.
  - destruct (request_action_instance send_request_action_email now self w)
      as (key & [[-> _]|[-> _]]); reflexivity.
  - destruct (deactivate_instance send_deactivate_email now self w)
      as [[-> _]|[-> _]]; reflexivity.
Qed.

(** Whatever lifecycle methods are called on a pet, in whatever order
    and whatever the senders report, the row of every other pet stays
    as it was, and the pet keeps its id, owner, name, description, city,
    kind, size, sex, picture, [published] flag, slug and creation
    time. *)
Theorem lifecycle_run_frame ops self w (i : Z) :
  i ≠ Pet.id self →
  fixed_fields (run' ops self w).1 = fixed_fields self
  ∧ Pet.table (run' ops self w).2 !! i = Pet.table w !! i.
Proof.
  revert self w. induction ops as [|[m now] ops IH]; intros self w Hi.
  - split; reflexivity.
  - rewrite run_cons. destruct (call_frame m now self w i Hi) as [Hf Ht].
    assert (Hid : Pet.id (call' m now self w).1 = Pet.id self).
    { by injection Hf. }
    destruct (IH (call' m now self w).1 (call' m now self w).2) as [Hf' Ht'].
    { by rewrite Hid. }
    split; [by rewrite Hf'|by rewrite Ht'].
Qed.

(** Over any run of lifecycle calls the request key stays empty or a
    digest of 40 hexadecimal digits, and is not empty while
    [request_sent] is set. *)
Theorem lifecycle_run_key_invariant ops self w :
  key_invariant self → key_invariant (run' ops self w).1.
Proof.
  revert self w. induction ops as [|[m now] ops IH]; intros self w Hinv.
  - exact Hinv.
  - rewrite run_cons. by apply IH, call_key_invariant.
Qed.

(** Only [change_status] changes the status: a run without it leaves
    the status as it was, and after a run with it the status is Found
    or Adopted, so the pet is never Missing or ForAdoption again. *)
Theorem lifecycle_run_status ops self w :
  (Forall (λ op, op.1 ≠ ChangeStatus) ops →
   Pet.status (run' ops self w).1 = Pet.status self)
  ∧ (Exists (λ op, op.1 = ChangeStatus) ops →
     Pet.status (run' ops self w).1 ∈ [Pet.FOUND; Pet.ADOPTED]).
Proof.
  assert (Hkeep : ∀ ops self w,
            Pet.status self ∈ [Pet.FOUND; Pet.ADOPTED] →
            Pet.status (run' ops self w).1 ∈ [Pet.FOUND; Pet.ADOPTED]).
  { clear ops self w. intros ops.
    induction ops as [|[m now] ops IH]; intros self w Hst.
    - exact Hst.
    - rewrite run_cons. apply IH. rewrite call_status.
      destruct m; try exact Hst. case_bool_decide; [left|right; left]. }
  revert self w. induction ops as [|[m now] ops IH]; intros self w.
  - split; [reflexivity|]. by intros ?%Exists_nil.
  - rewrite run_cons. split.
    + intros [Hm Hops]%Forall_cons. simpl in Hm.
      rewrite (proj1 (IH _ _) Hops), call_status. by destruct m.
    + intros [Hm|Hops]%Exists_cons.
      * simpl in Hm. subst m. apply Hkeep. rewrite call_status.
        case_bool_decide; [left|right; left].
      * by apply IH.
Qed.
End lifecycle_runs.

Lemma lifecycle_run_frame_witness :
  Pet.table
    (run fails delivers
         [(RequestAction, 131 * day); (Deactivate, 170 * day);
          (Activate, 171 * day); (ChangeStatus, 172 * day)] rex world1).2
  !! 2 = Some tom.
Proof.
  assert (Hne : 2 ≠ Pet.id rex) by discriminate.
  rewrite (proj2 (lifecycle_run_frame fails delivers
                    [(RequestAction, 131 * day); (Deactivate, 170 * day);
                     (Activate, 171 * day); (ChangeStatus, 172 * day)]
                    rex world1 2 Hne)).
  reflexivity.
Defined.

Lemma lifecycle_run_key_invariant_witness :
  key_invariant
    (run delivers delivers
         [(RequestAction, 131 * day); (Deactivate, 170 * day)] rex world0).1.
Proof.
  apply lifecycle_run_key_invariant.
  split; [by left|]. by intros [? [=]].
Defined.
